(** * memento-mcp: ontology aggregation, label sanitisation, integer
      conversion, embedding backfill and relation decay

    A shallow embedding of the parts of the repository that the
    specification speaks about:

    - [extractOntology] / [formatOntology]
      (src/server/handlers/toolHandlers/getOntology.ts),
    - the inline [get_ontology] branch of [handleToolCall],
    - [convertNeo4jIntegers] (readGraph.ts, getOntology.ts),
    - [sanitizeLabel] (scripts/addEntityTypeLabels.js),
    - the backfill loop of scripts/update_missing_embeddings.mjs,
    - the decay law of the specification (its code is not part of the
      sources at hand),

    and of the code around them:

    - the guards of class [Relation] (src/types/relation.ts),
    - [handleReadGraph] and [handleAddLabel] (readGraph.ts) and the
      [add_label] branch of [handleToolCall],
    - [main] of scripts/addEntityTypeLabels.js.

    Conventions of the embedding.

    - A JavaScript string whose characters are never inspected one by one
      is a [string]; [sanitizeLabel], which works character by character,
      uses sequences of UTF-16 code units instead.
    - A plain object used as a map is a [JsObject.t]: its own properties in
      the order [Object.entries] lists them.  Reading [o[k]] goes through
      the prototype chain: [JsObject.read] finds the members of
      [Object.prototype] (such as [constructor]) where [o] has no property
      of its own, and a built-in function is printed the way Node prints
      it.
    - Code that can throw returns a [result]; [Throws] stands for the
      exception leaving the function.
    - [String.prototype.localeCompare] belongs to the host and is a
      parameter; [Array.prototype.sort] is a stable insertion sort, which
      is what every engine computes for a consistent comparator. *)

From Stdlib Require Import List String Ascii Bool Arith NArith ZArith Lia.
From Stdlib Require Import Permutation Sorted DecimalString.
From Stdlib Require Import Reals Lra.
From Stdlib Require OrderedTypeEx.
From Stdlib Require QArith.
Import ListNotations.

Open Scope string_scope.

(* ================================================================== *)
(** ** Completions: values and thrown errors *)
(* ================================================================== *)

Inductive JsError : Type :=
| TypeError (message : string)
| SyntaxError (message : string)
| Error (message : string).

Inductive result (A : Type) : Type :=
| Returns (a : A)
| Throws (e : JsError).

Arguments Returns {A} a.
Arguments Throws {A} e.

Definition bind {A B : Type} (c : result A) (k : A -> result B) : result B :=
  match c with
  | Returns a => k a
  | Throws e => Throws e
  end.

Notation "x <- c ;; k" := (bind c (fun x => k))
  (at level 61, c at next level, right associativity).

(** A loop whose body may throw: the first exception ends it. *)
Fixpoint forEachM {A S : Type} (body : S -> A -> result S) (l : list A) (s : S)
  : result S :=
  match l with
  | [] => Returns s
  | x :: l' => s' <- body s x ;; forEachM body l' s'
  end.

(** [l.push(x)] *)
Definition push {A : Type} (l : list A) (x : A) : list A := List.app l [x].

(** The line feed of the templates. *)
Definition LF : string := String (ascii_of_nat 10) EmptyString.

(** [`${n}`] for a count. *)
Definition Number_toString (n : nat) : string :=
  NilZero.string_of_uint (Nat.to_uint n).

(** [`${s}`] for a value that is a string or [undefined]. *)
Definition ToString (s : option string) : string :=
  match s with
  | Some s => s
  | None => "undefined"
  end.

(** [!!s] for a value that is a string or [undefined]. *)
Definition truthy (s : option string) : bool :=
  match s with
  | Some (String _ _) => true
  | _ => false
  end.

(** What a map of counts holds at run time: a number or, once [+ 1] has
    met something that is not a number, a string. *)
Inductive Tally : Type :=
| Count (n : nat)
| Text (s : string).

(** [`${v}`] for such a value. *)
Definition Tally_toString (v : Tally) : string :=
  match v with
  | Count n => Number_toString n
  | Text s => s
  end.

(* ================================================================== *)
(** ** Plain objects used as maps *)
(* ================================================================== *)

Module JsObject.

(** Own properties, in the order of [Object.entries]: array-index keys in
    ascending numeric order first, then the other keys in the order they
    were created. *)
Definition t (V : Type) : Type := list (string * V).

Definition empty {V : Type} : t V := [].

Definition digit_of (c : ascii) : option N :=
  let n := N_of_ascii c in
  if ((48 <=? n) && (n <=? 57))%N then Some (n - 48)%N else None.

Fixpoint parse_digits (s : string) (acc : N) : option N :=
  match s with
  | EmptyString => Some acc
  | String c s' =>
      match digit_of c with
      | Some d => parse_digits s' (10 * acc + d)%N
      | None => None
      end
  end.

(** The array index a property name denotes, if any: a canonical decimal
    numeral below 2^32 - 1. *)
Definition array_index (k : string) : option N :=
  match k with
  | EmptyString => None
  | String c rest =>
      if Ascii.eqb c "0"
      then match rest with EmptyString => Some 0%N | _ => None end
      else match parse_digits k 0 with
           | Some n => if (n <? 2 ^ 32 - 1)%N then Some n else None
           | None => None
           end
  end.

(** A new key [k] is listed before the existing key [k']. *)
Definition precedes (k k' : string) : bool :=
  match array_index k, array_index k' with
  | Some i, Some j => (i <? j)%N
  | Some _, None => true
  | None, _ => false
  end.

(** [o[k]] *)
Fixpoint get {V : Type} (o : t V) (k : string) : option V :=
  match o with
  | [] => None
  | (k', v) :: o' => if String.eqb k' k then Some v else get o' k
  end.

Fixpoint update {V : Type} (o : t V) (k : string) (v : V) : t V :=
  match o with
  | [] => []
  | (k', v') :: o' =>
      if String.eqb k' k then (k', v) :: o' else (k', v') :: update o' k v
  end.

Fixpoint insert_new {V : Type} (o : t V) (k : string) (v : V) : t V :=
  match o with
  | [] => [(k, v)]
  | (k', v') :: o' =>
      if precedes k k' then (k, v) :: (k', v') :: o'
      else (k', v') :: insert_new o' k v
  end.

(** [o[k] = v] *)
Definition set {V : Type} (o : t V) (k : string) (v : V) : t V :=
  match get o k with
  | Some _ => update o k v
  | None => insert_new o k v
  end.

(** [Object.entries(o)], [Object.keys(o)], [Object.values(o)] *)
Definition entries {V : Type} (o : t V) : list (string * V) := o.
Definition keys {V : Type} (o : t V) : list string := map fst o.
Definition values {V : Type} (o : t V) : list V := map snd o.

(** [Object.fromEntries(l)] *)
Definition fromEntries {V : Type} (l : list (string * V)) : t V :=
  fold_left (fun o kv => set o (fst kv) (snd kv)) l empty.

(** The members of [Object.prototype], which every plain object inherits:
    eleven built-in functions and the accessor [__proto__]. *)
Inductive Member : Type :=
| BuiltinFunction (name : string)
| ProtoAccessor.

Definition Object_prototype (k : string) : option Member :=
  if String.eqb k "constructor" then Some (BuiltinFunction "Object")
  else if existsb (String.eqb k)
            [ "__defineGetter__"; "__defineSetter__"; "hasOwnProperty";
              "__lookupGetter__"; "__lookupSetter__"; "isPrototypeOf";
              "propertyIsEnumerable"; "toString"; "valueOf";
              "toLocaleString" ]
  then Some (BuiltinFunction k)
  else if String.eqb k "__proto__" then Some ProtoAccessor
  else None.

(** [o[k]] as an expression: the own property, else the inherited member,
    else [undefined]. *)
Inductive Read (V : Type) : Type :=
| Own (v : V)
| Inherited (m : Member)
| Undefined.

Arguments Own {V} v.
Arguments Inherited {V} m.
Arguments Undefined {V}.

Definition read {V : Type} (o : t V) (k : string) : Read V :=
  match get o k with
  | Some v => Own v
  | None =>
      match Object_prototype k with
      | Some m => Inherited m
      | None => Undefined
      end
  end.

(** [String(f)] for a built-in function. *)
Definition functionText (name : string) : string :=
  "function " ++ name ++ "() { [native code] }".

(** [(o[k] || 0) + 1] on a map of counts: a number is incremented, while
    a string, a function or an object is turned into text by [+]. *)
Definition orZero_plusOne (r : Read Tally) : Tally :=
  match r with
  | Own (Count n) => Count (n + 1)
  | Own (Text EmptyString) => Count 1
  | Own (Text s) => Text (s ++ "1")
  | Inherited (BuiltinFunction name) => Text (functionText name ++ "1")
  | Inherited ProtoAccessor => Text "[object Object]1"
  | Undefined => Count 1
  end.

(** [o[k] = v] for a number or a string [v]: the setter behind
    [__proto__] ignores such a value, and any other name becomes or stays
    an own property. *)
Definition assign (o : t Tally) (k : string) (v : Tally) : t Tally :=
  match read o k with
  | Inherited ProtoAccessor => o
  | _ => set o k v
  end.

End JsObject.

(* ================================================================== *)
(** ** Array.prototype.sort *)
(* ================================================================== *)

Section ArraySort.

Context {A : Type}.
Variable compareFn : A -> A -> result Z.

(** [x] stood before every element of [l] in the array. *)
Fixpoint sort_insert (x : A) (l : list A) : result (list A) :=
  match l with
  | [] => Returns [x]
  | y :: l' =>
      c <- compareFn x y ;;
      if (c <=? 0)%Z then Returns (x :: y :: l')
      else (r <- sort_insert x l' ;; Returns (y :: r))
  end.

Fixpoint Array_sort (l : list A) : result (list A) :=
  match l with
  | [] => Returns []
  | x :: l' => s <- Array_sort l' ;; sort_insert x s
  end.

End ArraySort.

(* ================================================================== *)
(** ** getOntology.ts *)
(* ================================================================== *)

Module Ontology.

(** The fields of a stored record that the aggregation reads.  A missing
    field is [None]. *)
Record Entity : Type := {
  name : string;
  entityType : option string
}.

Record Relation : Type := {
  from : string;
  to : string;
  relationType : option string
}.

(** [graph.entities] and [graph.relations] may be absent. *)
Record KnowledgeGraph : Type := {
  entities : option (list Entity);
  relations : option (list Relation)
}.

(** [{ from, to, count }] *)
Record Connection : Type := {
  conn_from : option string;
  conn_to : option string;
  count : nat
}.

Record OntologyData : Type := {
  entityTypes : JsObject.t Tally;
  relationTypes : JsObject.t (list Connection)
}.

Definition option_string_eqb (a b : option string) : bool :=
  match a, b with
  | Some x, Some y => String.eqb x y
  | None, None => true
  | _, _ => false
  end.

(** [conn => conn.from === fromType && conn.to === toType] *)
Definition sameConnection (fromType toType : option string) (conn : Connection)
  : bool :=
  option_string_eqb (conn_from conn) fromType
  && option_string_eqb (conn_to conn) toType.

(** [existingConnection.count++] on the first connection [find] returns. *)
Fixpoint incrementFirst (p : Connection -> bool) (l : list Connection)
  : list Connection :=
  match l with
  | [] => []
  | c :: l' =>
      if p c
      then {| conn_from := conn_from c; conn_to := conn_to c;
              count := S (count c) |} :: l'
      else c :: incrementFirst p l'
  end.

(** Body of the loop over [graph.entities]. *)
Definition countEntity (entityTypes : JsObject.t Tally) (entity : Entity)
  : JsObject.t Tally :=
  match entityType entity with
  | Some (String _ _ as ty) =>
      JsObject.assign entityTypes ty
        (JsObject.orZero_plusOne (JsObject.read entityTypes ty))
  | _ => entityTypes
  end.

(** [graph.entities.find(e => e.name === n)] *)
Definition findEntity (es : list Entity) (n : string) : option Entity :=
  find (fun e => String.eqb (name e) n) es.

(** The part of the relation loop's body after both [continue]s.  An
    array and an inherited member are both truthy, so only a name that is
    found nowhere gets its empty array; [.find] is then read off whatever
    [relationTypes[rt]] is, and calling it throws unless that is an
    array. *)
Definition recordConnection (relationTypes : JsObject.t (list Connection))
  (rt : string) (fromType toType : option string)
  : result (JsObject.t (list Connection)) :=
  let relationTypes :=
    match JsObject.read relationTypes rt with
    | JsObject.Undefined => JsObject.set relationTypes rt []
    | _ => relationTypes
    end in
  match JsObject.read relationTypes rt with
  | JsObject.Own connections =>
      match find (sameConnection fromType toType) connections with
      | Some _ =>
          Returns
            (JsObject.set relationTypes rt
               (incrementFirst (sameConnection fromType toType) connections))
      | None =>
          Returns
            (JsObject.set relationTypes rt
               (push connections
                  {| conn_from := fromType; conn_to := toType; count := 1 |}))
      end
  | JsObject.Inherited _ =>
      Throws (TypeError "relationTypes[relation.relationType].find is not a function")
  | JsObject.Undefined =>
      Throws (TypeError "Cannot read properties of undefined (reading 'find')")
  end.

(** Body of the loop over [graph.relations]; [graph.entities.find] throws
    when [graph.entities] is absent. *)
Definition processRelation (graphEntities : option (list Entity))
  (relationTypes : JsObject.t (list Connection)) (relation : Relation)
  : result (JsObject.t (list Connection)) :=
  match relationType relation with
  | Some (String _ _ as rt) =>
      match graphEntities with
      | None => Throws (TypeError "Cannot read properties of undefined (reading 'find')")
      | Some es =>
          match findEntity es (from relation), findEntity es (to relation) with
          | Some fromEntity, Some toEntity =>
              recordConnection relationTypes rt
                (entityType fromEntity) (entityType toEntity)
          | _, _ => Returns relationTypes
          end
      end
  | _ => Returns relationTypes
  end.

Definition extractOntology (graph : KnowledgeGraph) : result OntologyData :=
  let entityTypes :=
    match entities graph with
    | Some es => fold_left countEntity es JsObject.empty
    | None => JsObject.empty
    end in
  relationTypes <-
    match relations graph with
    | Some rs => forEachM (processRelation (entities graph)) rs JsObject.empty
    | None => Returns JsObject.empty
    end ;;
  Returns {| entityTypes := entityTypes; relationTypes := relationTypes |}.

Section Format.

(** [a.localeCompare(b)]: negative, zero or positive. *)
Variable localeCompare : string -> string -> Z.

(** [([a], [b]) => a.localeCompare(b)] *)
Definition compareKeys {V : Type} (a b : string * V) : result Z :=
  Returns (localeCompare (fst a) (fst b)).

(** [(a, b) => a.from.localeCompare(b.from) || a.to.localeCompare(b.to)];
    reading [localeCompare] off [undefined] throws, while an [undefined]
    argument is compared as the text "undefined". *)
Definition compareConnections (a b : Connection) : result Z :=
  match conn_from a with
  | None => Throws (TypeError "Cannot read properties of undefined (reading 'localeCompare')")
  | Some fa =>
      let c := localeCompare fa (ToString (conn_from b)) in
      if (c =? 0)%Z
      then match conn_to a with
           | None => Throws (TypeError "Cannot read properties of undefined (reading 'localeCompare')")
           | Some ta => Returns (localeCompare ta (ToString (conn_to b)))
           end
      else Returns c
  end.

(** [`${conn.from}→${conn.to}`] *)
Definition connectionKey (conn : Connection) : string :=
  ToString (conn_from conn) ++ "→" ++ ToString (conn_to conn).

(** Body of [connections.forEach] that fills [groupedConnections].  The
    key holds an arrow, which no member of [Object.prototype] has in its
    name, so that [groupedConnections[key]] is an own property or
    [undefined]. *)
Definition groupConnection (groupedConnections : JsObject.t Connection)
  (conn : Connection) : JsObject.t Connection :=
  let key := connectionKey conn in
  match JsObject.get groupedConnections key with
  | None => JsObject.set groupedConnections key conn
  | Some g =>
      JsObject.set groupedConnections key
        {| conn_from := conn_from g; conn_to := conn_to g;
           count := count g + count conn |}
  end.

Definition groupConnections (connections : list Connection)
  : JsObject.t Connection :=
  fold_left groupConnection connections JsObject.empty.

Definition entityLine (entry : string * Tally) : string :=
  "EntityType: " ++ fst entry ++ " (" ++ Tally_toString (snd entry) ++ ")" ++ LF.

Definition relationLine (type : string) (conn : Connection) : string :=
  "RelationType: " ++ type ++ " (EntityType: " ++ ToString (conn_from conn)
  ++ " → EntityType: " ++ ToString (conn_to conn) ++ ") ("
  ++ Number_toString (count conn) ++ ")" ++ LF.

(** Body of [relationTypeEntries.sort(...).forEach]. *)
Definition formatRelationType (output : string)
  (entry : string * list Connection) : result string :=
  let type := fst entry in
  let groupedConnections := groupConnections (snd entry) in
  sorted <- Array_sort compareConnections (JsObject.values groupedConnections) ;;
  Returns (fold_left (fun out conn => out ++ relationLine type conn) sorted output).

Definition formatOntology (ontology : OntologyData) : result string :=
  let output := "" in
  let entityTypeEntries := JsObject.entries (entityTypes ontology) in
  let relationTypeEntries := JsObject.entries (relationTypes ontology) in
  if (List.length entityTypeEntries =? 0)%nat && (List.length relationTypeEntries =? 0)%nat
  then Returns "No entities or relations found in the knowledge graph."
  else
    output <-
      (if (0 <? List.length entityTypeEntries)%nat
       then
         sorted <- Array_sort compareKeys entityTypeEntries ;;
         Returns (fold_left (fun out entry => out ++ entityLine entry) sorted output
                  ++ LF)
       else Returns (output ++ "No entity types found in the knowledge graph."
                     ++ LF ++ LF)) ;;
    if (0 <? List.length relationTypeEntries)%nat
    then
      sorted <- Array_sort compareKeys relationTypeEntries ;;
      forEachM formatRelationType sorted output
    else Returns (output ++ "No relation types found in the knowledge graph.").

(** [handleGetOntology], after the graph has been read and parsed. *)
Definition handleGetOntology (graph : KnowledgeGraph) : result string :=
  ontology <- extractOntology graph ;;
  formatOntology ontology.

End Format.

End Ontology.

(* ================================================================== *)
(** ** handleToolCall, case 'get_ontology' *)
(* ================================================================== *)

Module ToolCall.

Import Ontology.

(** The object the case returns; the two raw maps are absent from the
    answer for an empty graph. *)
Record Response : Type := {
  resp_entities : list Entity;
  resp_relations : list Relation;
  ontology : string;
  _entityTypes : option (JsObject.t Tally);
  _relationTypes : option (JsObject.t (list Connection))
}.

(** The callback of [graph.entities.forEach]. *)
Definition caseEntityTypes (graphEntities : list Entity) : JsObject.t Tally :=
  fold_left
    (fun entityTypes entity =>
       if truthy (entityType entity)
       then
         let ty := ToString (entityType entity) in
         JsObject.assign entityTypes ty
           (JsObject.orZero_plusOne (JsObject.read entityTypes ty))
       else entityTypes)
    graphEntities JsObject.empty.

(** The loop [for (const relation of graph.relations)]; calling [.find]
    on an inherited member of [relationTypes] throws. *)
Definition caseRelationTypes (graphEntities : list Entity)
  (graphRelations : list Relation) : result (JsObject.t (list Connection)) :=
  forEachM
    (fun relationTypes relation =>
       if negb (truthy (relationType relation)) then Returns relationTypes
       else
         let rt := ToString (relationType relation) in
         let fromEntity :=
           find (fun e => String.eqb (name e) (from relation)) graphEntities in
         let toEntity :=
           find (fun e => String.eqb (name e) (to relation)) graphEntities in
         match fromEntity, toEntity with
         | Some fromEntity, Some toEntity =>
             let fromType := entityType fromEntity in
             let toType := entityType toEntity in
             let relationTypes :=
               match JsObject.read relationTypes rt with
               | JsObject.Undefined => JsObject.set relationTypes rt []
               | _ => relationTypes
               end in
             match JsObject.read relationTypes rt with
             | JsObject.Own connections =>
                 match find (fun conn =>
                               option_string_eqb (conn_from conn) fromType
                               && option_string_eqb (conn_to conn) toType)
                            connections with
                 | Some _ =>
                     Returns
                       (JsObject.set relationTypes rt
                          (incrementFirst
                             (fun conn =>
                                option_string_eqb (conn_from conn) fromType
                                && option_string_eqb (conn_to conn) toType)
                             connections))
                 | None =>
                     Returns
                       (JsObject.set relationTypes rt
                          (push connections
                             {| conn_from := fromType; conn_to := toType;
                                count := 1 |}))
                 end
             | JsObject.Inherited _ =>
                 Throws (TypeError "relationTypes[relation.relationType].find is not a function")
             | JsObject.Undefined =>
                 Throws (TypeError "Cannot read properties of undefined (reading 'find')")
             end
         | _, _ => Returns relationTypes
         end)
    graphRelations JsObject.empty.

Section Case.

Variable localeCompare : string -> string -> Z.

(** The text built in [output] once the graph is known not to be empty. *)
Definition caseOutput (entityTypes : JsObject.t Tally)
  (relationTypes : JsObject.t (list Connection)) : result string :=
  let output := "" in
  let entityTypeEntries := JsObject.entries entityTypes in
  let relationTypeEntries := JsObject.entries relationTypes in
  output <-
    match entityTypeEntries with
    | _ :: _ =>
        sorted <- Array_sort (compareKeys localeCompare) entityTypeEntries ;;
        Returns
          (fold_left
             (fun out entry =>
                out ++ "EntityType: " ++ fst entry ++ " ("
                ++ Tally_toString (snd entry) ++ ")" ++ LF)
             sorted output ++ LF)
    | [] =>
        Returns (output ++ "No entity types found in the knowledge graph."
                 ++ LF ++ LF)
    end ;;
  match relationTypeEntries with
  | _ :: _ =>
      sorted <- Array_sort (compareKeys localeCompare) relationTypeEntries ;;
      forEachM
        (fun output entry =>
           let type := fst entry in
           let groupedConnections :=
             fold_left
               (fun groupedConnections conn =>
                  let key :=
                    ToString (conn_from conn) ++ "→" ++ ToString (conn_to conn) in
                  match JsObject.get groupedConnections key with
                  | None => JsObject.set groupedConnections key conn
                  | Some g =>
                      JsObject.set groupedConnections key
                        {| conn_from := conn_from g; conn_to := conn_to g;
                           count := count g + count conn |}
                  end)
               (snd entry) JsObject.empty in
           sorted <- Array_sort (compareConnections localeCompare)
                       (JsObject.values groupedConnections) ;;
           Returns
             (fold_left
                (fun out conn =>
                   out ++ "RelationType: " ++ type ++ " (EntityType: "
                   ++ ToString (conn_from conn) ++ " → EntityType: "
                   ++ ToString (conn_to conn) ++ ") ("
                   ++ Number_toString (count conn) ++ ")" ++ LF)
                sorted output))
        sorted output
  | [] => Returns (output ++ "No relation types found in the knowledge graph.")
  end.

(** The case itself, from the graph [manager.readGraph()] resolved to.
    [forEach] and [for ... of] throw on an absent array.  [Throws] is the
    exception as it leaves the [try] block; the handler that catches it
    is not part of the sources. *)
Definition handleToolCall_get_ontology (graph : KnowledgeGraph) : result Response :=
  graphEntities <-
    match entities graph with
    | Some es => Returns es
    | None => Throws (TypeError "Cannot read properties of undefined (reading 'forEach')")
    end ;;
  let entityTypes := caseEntityTypes graphEntities in
  graphRelations <-
    match relations graph with
    | Some rs => Returns rs
    | None => Throws (TypeError "graph.relations is not iterable")
    end ;;
  relationTypes <- caseRelationTypes graphEntities graphRelations ;;
  match JsObject.entries entityTypes, JsObject.entries relationTypes with
  | [], [] =>
      Returns {| resp_entities := []; resp_relations := [];
                 ontology := "No entities or relations found in the knowledge graph.";
                 _entityTypes := None; _relationTypes := None |}
  | _, _ =>
      output <- caseOutput entityTypes relationTypes ;;
      Returns {| resp_entities := graphEntities;
                 resp_relations := graphRelations;
                 ontology := output;
                 _entityTypes := Some entityTypes;
                 _relationTypes := Some relationTypes |}
  end.

End Case.

End ToolCall.

(* ================================================================== *)
(** ** readGraph.ts: convertNeo4jIntegers *)
(* ================================================================== *)

Module ReadGraph.

#[local] Set Warnings "-register-all".

(** JSON-like values as the driver hands them over.  [VInteger] is the
    driver's 64-bit [Integer], the only value [neo4j.isInt] accepts.
    Numbers are integers here: fractions play no part in what follows. *)
Inductive value : Type :=
| VUndefined
| VNull
| VBoolean (b : bool)
| VNumber (n : Z)
| VString (s : string)
| VInteger (low high : Z)
| VArray (l : list value)
| VObject (o : list (string * value)).

(** [Integer.prototype.toNumber]: [high * 2^32 + (low >>> 0)]. *)
Definition toNumber (low high : Z) : Z :=
  (high * 2 ^ 32 + low mod 2 ^ 32)%Z.

Fixpoint convertNeo4jIntegers (obj : value) : value :=
  match obj with
  | VInteger low high => VNumber (toNumber low high)
  | VArray l => VArray (map convertNeo4jIntegers l)
  | VObject o =>
      VObject
        (JsObject.fromEntries
           (map (fun kv => (fst kv, convertNeo4jIntegers (snd kv)))
                (JsObject.entries o)))
  | _ => obj
  end.

(** The own properties of an object as [Object.entries] can list them:
    distinct names, array indices first and ascending. *)
Fixpoint well_ordered {V : Type} (o : JsObject.t V) : bool :=
  match o with
  | [] => true
  | kv :: o' =>
      forallb (fun kv' => negb (String.eqb (fst kv) (fst kv'))
                          && negb (JsObject.precedes (fst kv') (fst kv))) o'
      && well_ordered o'
  end.

(** Every object inside the value lists its properties that way. *)
Fixpoint well_formed (v : value) : bool :=
  match v with
  | VArray l => forallb well_formed l
  | VObject o =>
      well_ordered o && forallb (fun kv => well_formed (snd kv)) o
  | _ => true
  end.


End ReadGraph.

(* ================================================================== *)
(** ** scripts/addEntityTypeLabels.js: sanitizeLabel *)
(* ================================================================== *)

Module Labels.

(** A string as its UTF-16 code units. *)
Definition jsstring : Type := list N.

Definition lit (s : string) : jsstring :=
  map N_of_ascii (list_ascii_of_string s).

(** [[a-zA-Z]] *)
Definition isLetter (c : N) : bool :=
  ((65 <=? c) && (c <=? 90) || (97 <=? c) && (c <=? 122))%N.

(** [[a-zA-Z0-9_]] *)
Definition isWordChar (c : N) : bool :=
  (isLetter c || (48 <=? c) && (c <=? 57) || (c =? 95))%N.

(** [s.replace(/[^a-zA-Z0-9_]/g, '_')] *)
Definition replaceInvalid (s : jsstring) : jsstring :=
  map (fun c => if isWordChar c then c else 95%N) s.

(** [/^[a-zA-Z]/.test(s)] *)
Definition startsWithLetter (s : jsstring) : bool :=
  match s with
  | c :: _ => isLetter c
  | [] => false
  end.

(** The argument is a string or [undefined]. *)
Definition sanitizeLabel (entityType : option jsstring) : jsstring :=
  match entityType with
  | None | Some [] => lit "Unknown"
  | Some s =>
      let sanitized := replaceInvalid s in
      if negb (startsWithLetter sanitized)
      then (lit "T_" ++ sanitized)%list
      else sanitized
  end.

(** The character-set contract of a label. *)
Definition validLabel (l : jsstring) : bool :=
  match l with
  | c :: rest => isLetter c && forallb isWordChar rest
  | [] => false
  end.

End Labels.

(* ================================================================== *)
(** ** scripts/update_missing_embeddings.mjs *)
(* ================================================================== *)

Module Backfill.

Import ReadGraph.

(** [String(v)] and [`${v}`]. *)
Fixpoint valueToString (v : value) : string :=
  match v with
  | VUndefined => "undefined"
  | VNull => "null"
  | VBoolean true => "true"
  | VBoolean false => "false"
  | VNumber n => NilZero.string_of_int (Z.to_int n)
  | VString s => s
  | VInteger low high => NilZero.string_of_int (Z.to_int (toNumber low high))
  | VArray l =>
      String.concat ","
        (map (fun x => match x with
                       | VUndefined | VNull => ""
                       | _ => valueToString x
                       end) l)
  | VObject _ => "[object Object]"
  end.

Section Job.

(** The embedding service, the clock and the storage provider. *)
Variable Vector : Type.
Variable Store : Type.
Variable JSON_parse : string -> result value.
Variable generateEmbedding : string -> result Vector.
Variable modelName : string.
Variable Date_now : Z.

Record EntityEmbedding : Type := {
  vector : Vector;
  model : string;
  lastUpdated : Z
}.

(** [storageProvider.updateEntityEmbedding], when the provider has it. *)
Variable updateEntityEmbedding :
  option (Store -> string -> EntityEmbedding -> result Store).

Record Entity : Type := {
  name : string;
  entityType : option string;
  observations : value;
  metadata : option value;
  embedding : option EntityEmbedding
}.

(** The observations as the array the text is rendered from. *)
Definition observationsArray (entity : Entity) : list value :=
  let observationsArray :=
    match observations entity with
    | VString s =>
        match JSON_parse s with
        | Returns v => v
        | Throws _ => VArray [VString s]
        end
    | v => v
    end in
  match observationsArray with
  | VArray l => l
  | v => [VString (valueToString v)]
  end.

(** The text handed to the embedding service. *)
Definition entityText (entity : Entity) : string :=
  let lines :=
    [ "Name: " ++ name entity;
      "Type: " ++ ToString (entityType entity);
      "Observations:" ] in
  let observationsArray := observationsArray entity in
  let lines :=
    match observationsArray with
    | _ :: _ =>
        List.app lines
          (map (fun obs => "- " ++ valueToString obs) observationsArray)
    | [] => push lines "  (No observations)"
    end in
  String.concat LF lines.

(** What the job has done so far. *)
Record State : Type := {
  store : Store;
  updated : nat;
  log : list string
}.

(** How an iteration, or the job, ends. *)
Inductive Control : Type :=
| Running
| Thrown (e : JsError)
| Exited (code : nat).

(** Body of [for (const entity of graph.entities)]. *)
Definition processEntity (st : State) (entity : Entity) : State * Control :=
  match embedding entity with
  | Some _ => (st, Running)
  | None =>
      let text := entityText entity in
      match generateEmbedding text with
      | Throws e => (st, Thrown e)
      | Returns embedding =>
          match updateEntityEmbedding with
          | Some update =>
              match update (store st) (name entity)
                      {| vector := embedding; model := modelName;
                         lastUpdated := Date_now |} with
              | Throws e => (st, Thrown e)
              | Returns store' =>
                  ({| store := store';
                      updated := updated st + 1;
                      log := push (log st)
                               ("Updated embedding for entity: " ++ name entity) |},
                   Running)
              end
          | None =>
              ({| store := store st; updated := updated st;
                  log := push (log st)
                           "Your storage provider does not implement updateEntityEmbedding!" |},
               Exited 1)
          end
      end
  end.

Fixpoint forOf (l : list Entity) (st : State) : State * Control :=
  match l with
  | [] => (st, Running)
  | entity :: l' =>
      match processEntity st entity with
      | (st', Running) => forOf l' st'
      | stopped => stopped
      end
  end.

(** [main().catch(...)] from the graph [readGraph] resolved to: the final
    state and the exit code of the process. *)
Definition main (graphEntities : list Entity) (st : State) : State * nat :=
  match forOf graphEntities st with
  | (st', Running) =>
      ({| store := store st'; updated := updated st';
          log := push (log st')
                   ("Updated embeddings for " ++ Number_toString (updated st')
                    ++ " entities.") |}, 0)
  | (st', Thrown e) =>
      ({| store := store st'; updated := updated st';
          log := push (log st') "Error updating embeddings:" |}, 1)
  | (st', Exited code) => (st', code)
  end.

End Job.

Arguments vector {Vector} e.
Arguments model {Vector} e.
Arguments lastUpdated {Vector} e.
Arguments name {Vector} e.
Arguments entityType {Vector} e.
Arguments observations {Vector} e.
Arguments metadata {Vector} e.
Arguments embedding {Vector} e.
Arguments store {Store} s.
Arguments updated {Store} s.
Arguments log {Store} s.

End Backfill.

(* ================================================================== *)
(** ** The decay law *)
(* ================================================================== *)

Module Decay.

Local Open Scope R_scope.


End Decay.

(* ================================================================== *)
(** ** relation.ts: the guards of class Relation *)
(* ================================================================== *)

Module RelationClass.

#[local] Set Warnings "-register-all".

(** A number: a finite one is a rational, which is all that the
    comparisons with 0 and 1 look at. *)
Inductive number : Type :=
| Finite (q : QArith_base.Q)
| NaN
| PlusInfinity
| MinusInfinity.

(** The values a guard can be handed.  An array holds its elements and no
    other own property. *)
Inductive jsvalue : Type :=
| JUndefined
| JNull
| JBoolean (b : bool)
| JNumber (n : number)
| JString (s : string)
| JArray (l : list jsvalue)
| JObject (o : list (string * jsvalue)).

(** [typeof v] *)
Definition typeof (v : jsvalue) : string :=
  match v with
  | JUndefined => "undefined"
  | JNull => "object"
  | JBoolean _ => "boolean"
  | JNumber _ => "number"
  | JString _ => "string"
  | JArray _ => "object"
  | JObject _ => "object"
  end.

(** [!!v] *)
Definition truthyValue (v : jsvalue) : bool :=
  match v with
  | JUndefined | JNull => false
  | JBoolean b => b
  | JNumber (Finite q) => negb (QArith_base.Qeq_bool q (QArith_base.inject_Z 0))
  | JNumber NaN => false
  | JNumber _ => true
  | JString EmptyString => false
  | JString _ => true
  | JArray _ | JObject _ => true
  end.

(** [v.k] for the property names the guards read, none of which is an
    index, [length] or another property of a primitive or an array. *)
Definition prop (v : jsvalue) (k : string) : jsvalue :=
  match v with
  | JObject o =>
      match JsObject.get o k with
      | Some x => x
      | None => JUndefined
      end
  | _ => JUndefined
  end.

(** [v === undefined] *)
Definition isUndefined (v : jsvalue) : bool :=
  match v with
  | JUndefined => true
  | _ => false
  end.

(** [v >= 0] and [v <= 1] for a value whose [typeof] is 'number'. *)
Definition atLeastZero (v : jsvalue) : bool :=
  match v with
  | JNumber (Finite q) => QArith_base.Qle_bool (QArith_base.inject_Z 0) q
  | JNumber PlusInfinity => true
  | _ => false
  end.

Definition atMostOne (v : jsvalue) : bool :=
  match v with
  | JNumber (Finite q) => QArith_base.Qle_bool q (QArith_base.inject_Z 1)
  | JNumber MinusInfinity => true
  | _ => false
  end.

(** [a && b] where [b] is a boolean: [a] itself when it is falsy. *)
Definition andThen (a : jsvalue) (b : bool) : jsvalue :=
  if truthyValue a then JBoolean b else a.

Definition isRelation (obj : jsvalue) : jsvalue :=
  andThen obj
    (String.eqb (typeof (prop obj "from")) "string"
     && String.eqb (typeof (prop obj "to")) "string"
     && String.eqb (typeof (prop obj "relationType")) "string"
     && (isUndefined (prop obj "strength")
         || String.eqb (typeof (prop obj "strength")) "number")
     && (isUndefined (prop obj "confidence")
         || String.eqb (typeof (prop obj "confidence")) "number")
     && (isUndefined (prop obj "metadata")
         || String.eqb (typeof (prop obj "metadata")) "object")).

Definition hasStrength (obj : jsvalue) : jsvalue :=
  andThen (isRelation obj)
    (String.eqb (typeof (prop obj "strength")) "number"
     && atLeastZero (prop obj "strength")
     && atMostOne (prop obj "strength")).

Definition hasConfidence (obj : jsvalue) : jsvalue :=
  andThen (isRelation obj)
    (String.eqb (typeof (prop obj "confidence")) "number"
     && atLeastZero (prop obj "confidence")
     && atMostOne (prop obj "confidence")).

(** The loop over [metadata.inferredFrom]: [false] at the first id that
    is not a string. *)
Fixpoint allStrings (ids : list jsvalue) : bool :=
  match ids with
  | [] => true
  | id :: ids' =>
      if negb (String.eqb (typeof id) "string") then false else allStrings ids'
  end.

Definition hasValidMetadata (obj : jsvalue) : bool :=
  if negb (truthyValue (isRelation obj)) || negb (truthyValue (prop obj "metadata"))
  then false
  else
    let metadata := prop obj "metadata" in
    if negb (String.eqb (typeof (prop metadata "createdAt")) "number")
       || negb (String.eqb (typeof (prop metadata "updatedAt")) "number")
    then false
    else if negb (isUndefined (prop metadata "lastAccessed"))
            && negb (String.eqb (typeof (prop metadata "lastAccessed")) "number")
    then false
    else if negb (isUndefined (prop metadata "inferredFrom"))
    then
      match prop metadata "inferredFrom" with
      | JArray ids => allStrings ids
      | _ => false
      end
    else true.

End RelationClass.

(* ================================================================== *)
(** ** The add_label handlers *)
(* ================================================================== *)

Module AddLabel.

(** [error.message] *)
Definition message (e : JsError) : string :=
  match e with
  | TypeError m | SyntaxError m | Error m => m
  end.

(** The arguments of the tool call. *)
Record Args : Type := {
  entityName : option string;
  label : option string
}.

(** What [handleToolCall] answers: [{ result }] or [{ error }]. *)
Inductive ToolAnswer : Type :=
| Result (text : string)
| ErrorAnswer (text : string).

Section Manager.

(** The knowledge graph manager: [addLabelToEntity] leaves a store behind
    and resolves or rejects. *)
Variable Store : Type.
Variable addLabelToEntity : Store -> string -> string -> Store * result unit.

(** handleAddLabel (toolHandlers): the text of the single content item. *)
Definition handleAddLabel (args : Args) (store : Store) : Store * string :=
  let attempt : Store * result string :=
    if negb (truthy (entityName args)) || negb (truthy (label args))
    then (store, Throws (Error "Both entityName and label are required"))
    else
      match addLabelToEntity store (ToString (entityName args))
              (ToString (label args)) with
      | (store', Returns _) =>
          (store',
           Returns ("Label '" ++ ToString (label args) ++ "' added to entity '"
                    ++ ToString (entityName args) ++ "'."))
      | (store', Throws e) => (store', Throws e)
      end in
  match attempt with
  | (store', Returns text) => (store', text)
  | (store', Throws error) => (store', "Error adding label: " ++ message error)
  end.

(** handleToolCall, case 'add_label'. *)
Definition handleToolCall_add_label (args : Args) (store : Store)
  : Store * ToolAnswer :=
  if negb (truthy (entityName args)) || negb (truthy (label args))
  then (store, ErrorAnswer "Both entityName and label are required")
  else
    match addLabelToEntity store (ToString (entityName args))
            (ToString (label args)) with
    | (store', Returns _) =>
        (store',
         Result ("Label '" ++ ToString (label args) ++ "' added to entity '"
                 ++ ToString (entityName args) ++ "'."))
    | (store', Throws error) => (store', ErrorAnswer (message error))
    end.

End Manager.

End AddLabel.

(* ================================================================== *)
(** ** scripts/addEntityTypeLabels.js: main *)
(* ================================================================== *)

Module Migration.

Import Labels.

(** A row of the query for the current entities. *)
Record Entity : Type := {
  name : jsstring;
  entityType : option jsstring
}.

(** [!!s] for a value that is a string or [undefined]. *)
Definition present (s : option jsstring) : bool :=
  match s with
  | Some (_ :: _) => true
  | _ => false
  end.

(** What the job has done so far; [queries] lists the label queries sent
    to the database, each with the entity name bound to [$name] and the
    label spliced into the statement. *)
Record Progress : Type := {
  updated : nat;
  skipped : nat;
  queries : list (jsstring * jsstring)
}.

Section Database.

(** The connection manager: each call leaves a database behind and
    resolves or rejects; the label query resolves to its number of
    records. *)
Variable Db : Type.
Variable initialize : Db -> Db * result unit.
Variable fetchEntities : Db -> Db * result (list Entity).
Variable addLabelQuery : Db -> jsstring -> jsstring -> Db * result nat.
Variable close : Db -> Db * result unit.

(** Body of [for (const entity of entities)]. *)
Definition processEntity (state : Db * Progress) (entity : Entity)
  : Db * Progress :=
  let (db, progress) := state in
  if negb (present (entityType entity))
  then (db, {| updated := updated progress;
               skipped := skipped progress + 1;
               queries := queries progress |})
  else
    let sanitizedLabel := sanitizeLabel (entityType entity) in
    let sent := push (queries progress) (name entity, sanitizedLabel) in
    match addLabelQuery db (name entity) sanitizedLabel with
    | (db', Returns records) =>
        if (0 <? records)%nat
        then (db', {| updated := updated progress + 1;
                      skipped := skipped progress;
                      queries := sent |})
        else (db', {| updated := updated progress;
                      skipped := skipped progress + 1;
                      queries := sent |})
    | (db', Throws _) =>
        (db', {| updated := updated progress;
                 skipped := skipped progress + 1;
                 queries := sent |})
    end.

Definition start : Progress :=
  {| updated := 0; skipped := 0; queries := [] |}.

(** The [try] block of [main]: the progress made, or the error that the
    [catch] reports as a failed migration. *)
Definition migrate (db : Db) : Db * result Progress :=
  match initialize db with
  | (db1, Throws e) => (db1, Throws e)
  | (db1, Returns _) =>
      match fetchEntities db1 with
      | (db2, Throws e) => (db2, Throws e)
      | (db2, Returns entities) =>
          let (db3, progress) := fold_left processEntity entities (db2, start) in
          (db3, Returns progress)
      end
  end.

(** [main().catch(...)]: the database after [finally] has closed the
    connection, what the [try] block came to, and the exit code, which is
    1 only when closing rejects. *)
Definition main (db : Db) : Db * result Progress * nat :=
  let (db1, outcome) := migrate db in
  match close db1 with
  | (db2, Returns _) => (db2, outcome, 0)
  | (db2, Throws _) => (db2, outcome, 1)
  end.

End Database.

End Migration.

(* ================================================================== *)
(** ** readGraph.ts: handleReadGraph *)
(* ================================================================== *)

Module ReadGraphHandler.

Import ReadGraph.

Section Handler.

(** [JSON.stringify(v, null, 2)] belongs to the host. *)
Variable JSON_stringify : value -> string.

(** The text of the single content item, from the value
    [knowledgeGraphManager.readGraph()] resolved to. *)
Definition handleReadGraph (result : value) : string :=
  let result := convertNeo4jIntegers result in
  JSON_stringify result.

End Handler.

End ReadGraphHandler.

(* ================================================================== *)
(** * The vocabulary of the statements *)
(* ================================================================== *)

(** ** Texts *)

(** [s.includes(part)] *)
Definition includes (s part : string) : Prop :=
  exists before after, s = before ++ part ++ after.

(** The texts of a list one after the other. *)
Definition joined (l : list string) : string := fold_right append "" l.

(** ** Sorted arrays *)

(** [a] may stand before [b] under the comparator [cmp]. *)
Definition orderedBy {A : Type} (cmp : A -> A -> Z) (a b : A) : Prop :=
  (cmp a b <= 0)%Z.

(** ** The ontology text *)

Import Ontology.

(** A connection both of whose ends carry a type, as the signature of
    [formatOntology] announces them. *)
Definition typedConnection (c : Connection) : bool :=
  match conn_from c, conn_to c with
  | Some _, Some _ => true
  | _, _ => false
  end.

Definition typedOntology (o : OntologyData) : bool :=
  forallb (fun entry => forallb typedConnection (snd entry)) (relationTypes o).


(** A count as it is printed. *)
Definition shown (v : Tally) : string :=
  match v with
  | Count n => Number_toString n
  | Text s => s
  end.

(** The two kinds of line of the output format. *)
Definition entityTypeLine (entry : string * Tally) : string :=
  "EntityType: " ++ fst entry ++ " (" ++ shown (snd entry) ++ ")" ++ LF.

Definition relationTypeLine (type : string) (c : Connection) : string :=
  "RelationType: " ++ type ++ " (EntityType: " ++ ToString (conn_from c)
  ++ " → EntityType: " ++ ToString (conn_to c) ++ ") ("
  ++ Number_toString (count c) ++ ")" ++ LF.

Definition entityBlock (es : list (string * Tally)) : string :=
  joined (map entityTypeLine es).

Definition relationBlock (groups : list (string * list Connection)) : string :=
  joined (map (fun g => joined (map (relationTypeLine (fst g)) (snd g))) groups).

(** The fixed template, from the entity-type entries and the groups of
    connections of each relation type, each in the order it is printed. *)
Definition template (es : list (string * Tally))
  (groups : list (string * list Connection)) : string :=
  match es, groups with
  | [], [] => "No entities or relations found in the knowledge graph."
  | _, _ =>
      match es with
      | [] => "No entity types found in the knowledge graph." ++ LF ++ LF
      | _ => entityBlock es ++ LF
      end
      ++
      match groups with
      | [] => "No relation types found in the knowledge graph."
      | _ => relationBlock groups
      end
  end.

(** What [compareConnections] computes when it does not throw. *)
Definition connectionOrder (localeCompare : string -> string -> Z)
  (a b : Connection) : Z :=
  let c := localeCompare (ToString (conn_from a)) (ToString (conn_from b)) in
  if (c =? 0)%Z
  then localeCompare (ToString (conn_to a)) (ToString (conn_to b))
  else c.

Definition keyOrder (localeCompare : string -> string -> Z) {V : Type}
  (a b : string * V) : Z :=
  localeCompare (fst a) (fst b).

(** The groups of one relation type, sorted as they are printed. *)
Definition printedGroups (localeCompare : string -> string -> Z)
  (entry g : string * list Connection) : Prop :=
  fst g = fst entry /\
  Array_sort (compareConnections localeCompare)
    (JsObject.values (groupConnections (snd entry))) = Returns (snd g).

(** Entries in the order of their keys. *)
Definition byType (localeCompare : string -> string -> Z) {V : Type}
  (a b : string * V) : Prop :=
  (localeCompare (fst a) (fst b) <= 0)%Z.

(** Connections in the order of their (from, to) pairs. *)
Definition byFromTo (localeCompare : string -> string -> Z)
  (a b : Connection) : Prop :=
  (localeCompare (ToString (conn_from a)) (ToString (conn_from b)) < 0)%Z \/
  (localeCompare (ToString (conn_from a)) (ToString (conn_from b)) = 0 /\
   localeCompare (ToString (conn_to a)) (ToString (conn_to b)) <= 0)%Z.

(** The sum of the counts of a list of connections. *)
Definition totalCount (l : list Connection) : nat :=
  fold_right (fun c n => count c + n) 0 l.

(** The text "from→to" under which the connections of a relation type are
    grouped, the connections of a list that share one, and what they are
    merged into: the types of the first with the sum of the counts. *)
Definition pairKey (c : Connection) : string :=
  ToString (conn_from c) ++ "→" ++ ToString (conn_to c).

Definition sharing (key : string) (conns : list Connection) : list Connection :=
  filter (fun c => String.eqb (pairKey c) key) conns.

Definition merged (conns : list Connection) : option Connection :=
  match conns with
  | [] => None
  | first :: _ =>
      Some {| conn_from := conn_from first; conn_to := conn_to first;
              count := totalCount conns |}
  end.

(** [g] lists what is printed for the relation type [entry]: one
    connection for each "from→to" text met among the stored connections,
    namely those that share it merged into one, in the order of their
    (from, to) pairs. *)
Definition groupsOf (localeCompare : string -> string -> Z)
  (entry g : string * list Connection) : Prop :=
  fst g = fst entry /\
  NoDup (map pairKey (snd g)) /\
  (forall c, In c (snd g) <-> merged (sharing (pairKey c) (snd entry)) = Some c) /\
  StronglySorted (byFromTo localeCompare) (snd g).

(** Comparison of strings by code units: one consistent comparator. *)
Definition codeUnitCompare (a b : string) : Z :=
  match String.compare a b with
  | Lt => (-1)%Z
  | Eq => 0%Z
  | Gt => 1%Z
  end.

(** ** The aggregation *)

(** The record a name resolves to: the first of [graph.entities] that
    carries it. *)
Fixpoint resolve (es : list Entity) (n : string) : option Entity :=
  match es with
  | [] => None
  | e :: es' => if String.eqb (name e) n then Some e else resolve es' n
  end.

(** The same type, or both missing. *)
Definition sameType (a b : option string) : bool :=
  match a, b with
  | Some x, Some y => String.eqb x y
  | None, None => true
  | _, _ => false
  end.

(** The types of the two entities a relation joins, when both names
    resolve. *)
Definition endpointsOf (es : list Entity) (r : Relation)
  : option (option string * option string) :=
  match resolve es (from r), resolve es (to r) with
  | Some f, Some t => Some (entityType f, entityType t)
  | _, _ => None
  end.

(** The relation has no relation type, or an end that does not resolve. *)
Definition skipped (es : list Entity) (r : Relation) : bool :=
  negb (truthy (relationType r))
  || match endpointsOf es r with
     | None => true
     | Some _ => false
     end.

(** The relation is kept and is one of type [rt] from [ft] to [tt]. *)
Definition contributes (es : list Entity) (rt : string)
  (ft tt : option string) (r : Relation) : bool :=
  negb (skipped es r)
  && sameType (relationType r) (Some rt)
  && match endpointsOf es r with
     | Some (f, t) => sameType f ft && sameType t tt
     | None => false
     end.

Definition occurrences (es : list Entity) (rs : list Relation) (rt : string)
  (ft tt : option string) : nat :=
  List.length (filter (contributes es rt ft tt) rs).

(** The connection goes from [ft] to [tt]. *)
Definition hasEnds (ft tt : option string) (c : Connection) : bool :=
  sameType (conn_from c) ft && sameType (conn_to c) tt.

(** [relationTypes[rt]], empty when there is none. *)
Definition connectionsOf (relationTypes : JsObject.t (list Connection))
  (rt : string) : list Connection :=
  match JsObject.get relationTypes rt with
  | Some l => l
  | None => []
  end.

(** The counts of the entries of [relationTypes[rt]] from [ft] to [tt]. *)
Definition tally (relationTypes : JsObject.t (list Connection)) (rt : string)
  (ft tt : option string) : list nat :=
  map count (filter (sameConnection ft tt) (connectionsOf relationTypes rt)).

(** One more occurrence: a first entry with count 1, or the entry's count
    raised by one. *)
Definition bump (l : list nat) : list nat :=
  match l with
  | [] => [1]
  | c :: l' => S c :: l'
  end.

(** The name is none of those that [Object.prototype] answers to. *)
Definition plainName (s : option string) : bool :=
  match s with
  | Some k =>
      match JsObject.Object_prototype k with
      | Some _ => false
      | None => true
      end
  | None => true
  end.

(** No entity type and no relation type of the graph is such a name. *)
Definition plainGraph (es : list Entity) (rs : list Relation) : Prop :=
  (forall e, In e es -> plainName (entityType e) = true) /\
  (forall r, In r rs -> plainName (relationType r) = true).

(** The map has no property of its own under such a name. *)
Definition ownPlain {V : Type} (m : JsObject.t V) : Prop :=
  forall k, JsObject.get m k <> None -> JsObject.Object_prototype k = None.

(** What the two loop bodies come to on such names: a map of numbers
    with one more under the type, and a map of arrays with the connection
    recorded. *)
Definition countPlain (entityTypes : JsObject.t nat) (entity : Entity)
  : JsObject.t nat :=
  match entityType entity with
  | Some (String _ _ as ty) =>
      JsObject.set entityTypes ty
        (match JsObject.get entityTypes ty with
         | Some n => n
         | None => 0
         end + 1)
  | _ => entityTypes
  end.

Definition recordPlain (relationTypes : JsObject.t (list Connection))
  (rt : string) (fromType toType : option string)
  : JsObject.t (list Connection) :=
  let relationTypes :=
    match JsObject.get relationTypes rt with
    | Some _ => relationTypes
    | None => JsObject.set relationTypes rt []
    end in
  let connections :=
    match JsObject.get relationTypes rt with
    | Some l => l
    | None => []
    end in
  match find (sameConnection fromType toType) connections with
  | Some _ =>
      JsObject.set relationTypes rt
        (incrementFirst (sameConnection fromType toType) connections)
  | None =>
      JsObject.set relationTypes rt
        (push connections
           {| conn_from := fromType; conn_to := toType; count := 1 |})
  end.

(** A map of numbers as a map of counts. *)
Definition counts (m : JsObject.t nat) : JsObject.t Tally :=
  map (fun kv => (fst kv, Count (snd kv))) m.



(** ** Sample graphs *)

(** The graph of the handler's test. *)
Definition teamEntities : list Entity := [
  {| name := "Person1"; entityType := Some "Person" |};
  {| name := "Person2"; entityType := Some "Person" |};
  {| name := "Team1"; entityType := Some "Team" |};
  {| name := "Project1"; entityType := Some "Project" |} ].

Definition teamRelations : list Relation := [
  {| from := "Person1"; to := "Team1"; relationType := Some "isMemberOf" |};
  {| from := "Person2"; to := "Team1"; relationType := Some "isMemberOf" |};
  {| from := "Project1"; to := "Team1"; relationType := Some "createdBy" |} ].

Definition teamGraph : KnowledgeGraph := {|
  entities := Some teamEntities;
  relations := Some teamRelations
|}.

Definition teamOntology : OntologyData := {|
  entityTypes := [("Person", Count 2); ("Team", Count 1); ("Project", Count 1)];
  relationTypes := [
    ("isMemberOf",
     [{| conn_from := Some "Person"; conn_to := Some "Team"; count := 2 |}]);
    ("createdBy",
     [{| conn_from := Some "Project"; conn_to := Some "Team"; count := 1 |}]) ]
|}.

(** The graph of the test with one more relation between two of its
    entities, whose relation type is the name of a member of
    [Object.prototype]. *)
Definition constructorGraph : KnowledgeGraph := {|
  entities := Some teamEntities;
  relations :=
    Some (List.app teamRelations
            [ {| from := "Person1"; to := "Team1";
                 relationType := Some "constructor" |} ])
|}.


(** A graph in which a record without [entityType] is joined to two
    entities of different types. *)
Definition looseGraph : KnowledgeGraph := {|
  entities := Some [ {| name := "Note"; entityType := None |};
                     {| name := "Ann"; entityType := Some "Person" |};
                     {| name := "Core"; entityType := Some "Team" |} ];
  relations := Some [ {| from := "Note"; to := "Ann"; relationType := Some "mentions" |};
                      {| from := "Note"; to := "Core"; relationType := Some "mentions" |} ]
|}.

(** The ontology of [looseGraph]: two connections of one relation type
    that start from a record without entity type. *)
Definition looseOntology : OntologyData := {|
  entityTypes := [("Person", Count 1); ("Team", Count 1)];
  relationTypes := [
    ("mentions",
     [{| conn_from := None; conn_to := Some "Person"; count := 1 |};
      {| conn_from := None; conn_to := Some "Team"; count := 1 |}]) ]
|}.

(** ** Driver values *)

Import ReadGraph.

#[local] Set Warnings "-register-all".


(** A record as the driver returns it. *)
Definition driverRecord : value :=
  VObject [ ("0", VInteger 7 0);
            ("name", VString "Team1");
            ("version", VInteger (-1) 0);
            ("tags", VArray [VString "a"; VInteger 3 1; VNull]);
            ("meta", VObject [("count", VInteger 2 0); ("ok", VBoolean true)]) ].

(** ** The backfill *)

Section BackfillVocabulary.

Variable Vector : Type.
Variable Store : Type.
Variable JSON_parse : string -> result value.
Variable generateEmbedding : string -> result Vector.
Variable modelName : string.
Variable Date_now : Z.
Variable updateEntityEmbedding :
  option (Store -> string -> Backfill.EntityEmbedding Vector -> result Store).

(** The same entity with other metadata. *)
Definition withMetadata (e : Backfill.Entity Vector) (m : option value)
  : Backfill.Entity Vector :=
  {| Backfill.name := Backfill.name e;
     Backfill.entityType := Backfill.entityType e;
     Backfill.observations := Backfill.observations e;
     Backfill.metadata := m;
     Backfill.embedding := Backfill.embedding e |}.

(** The embedding of [e] cannot be generated, or cannot be stored. *)
Definition embeddingFails (e : Backfill.Entity Vector)
  (st : Backfill.State Store) (err : JsError) : Prop :=
  Backfill.embedding e = None /\
  (generateEmbedding (Backfill.entityText Vector JSON_parse e) = Throws err \/
   exists v update,
     generateEmbedding (Backfill.entityText Vector JSON_parse e) = Returns v /\
     updateEntityEmbedding = Some update /\
     update (Backfill.store st) (Backfill.name e)
       {| Backfill.vector := v; Backfill.model := modelName;
          Backfill.lastUpdated := Date_now |} = Throws err).

End BackfillVocabulary.

(** An entity with metadata and no observations. *)
Definition projectAlpha : Backfill.Entity nat := {|
  Backfill.name := "Project Alpha";
  Backfill.entityType := Some "Project";
  Backfill.observations := VArray [];
  Backfill.metadata := Some (VObject [("status", VString "active")]);
  Backfill.embedding := None
|}.

(** A batch of two entities without embedding, a service that fails on
    the text of the first, and a store that records the names. *)
Definition noJson (s : string) : result value := Throws (SyntaxError s).

Definition entityA : Backfill.Entity nat := {|
  Backfill.name := "A"; Backfill.entityType := Some "Note";
  Backfill.observations := VArray [VString "first"];
  Backfill.metadata := None; Backfill.embedding := None
|}.

Definition entityB : Backfill.Entity nat := {|
  Backfill.name := "B"; Backfill.entityType := Some "Note";
  Backfill.observations := VArray [VString "second"];
  Backfill.metadata := None; Backfill.embedding := None
|}.

Definition failingService (text : string) : result nat :=
  if String.eqb text (Backfill.entityText nat noJson entityA)
  then Throws (Error "rate limited")
  else Returns (String.length text).

Definition nameStore
  : option (list string -> string -> Backfill.EntityEmbedding nat
            -> result (list string)) :=
  Some (fun st n _ => Returns (push st n)).

Definition emptyState : Backfill.State (list string) :=
  {| Backfill.store := []; Backfill.updated := 0; Backfill.log := [] |}.

Definition runBackfill (batch : list (Backfill.Entity nat))
  : Backfill.State (list string) * nat :=
  Backfill.main nat (list string) noJson failingService "test-model" 0
    nameStore batch emptyState.

(** ** Further vocabulary: values, labels, the migration, the backfill *)

(** No driver integer anywhere in the value. *)
Fixpoint integerFree (v : value) : bool :=
  match v with
  | VInteger _ _ => false
  | VArray l => forallb integerFree l
  | VObject o => forallb (fun kv => integerFree (snd kv)) o
  | _ => true
  end.

(** The label query the migration sends for an entity. *)
Definition labelQuery (e : Migration.Entity) : Labels.jsstring * Labels.jsstring :=
  (Migration.name e, Labels.sanitizeLabel (Migration.entityType e)).

Definition hasType (e : Migration.Entity) : bool :=
  Migration.present (Migration.entityType e).

(** The number of entities, taken in order from the database [db], whose
    label query finds a record.  An entity without entity type sends no
    query; each of the others sends its own to the database that the
    queries before it left behind, whether they were answered or
    rejected. *)
Fixpoint labelled {Db : Type}
  (addLabelQuery : Db -> Labels.jsstring -> Labels.jsstring -> Db * result nat)
  (db : Db) (entities : list Migration.Entity) : nat :=
  match entities with
  | [] => 0
  | e :: rest =>
      if hasType e
      then
        match addLabelQuery db (fst (labelQuery e)) (snd (labelQuery e)) with
        | (db', Returns (S _)) => 1 + labelled addLabelQuery db' rest
        | (db', _) => labelled addLabelQuery db' rest
        end
      else labelled addLabelQuery db rest
  end.

(** The text of the answer of [handleToolCall] as [handleAddLabel] words
    it. *)
Definition answerText (a : AddLabel.ToolAnswer) : string :=
  match a with
  | AddLabel.Result text => text
  | AddLabel.ErrorAnswer text => "Error adding label: " ++ text
  end.

(** A relation between two people, with its optional fields. *)
Definition knowsRelation : RelationClass.jsvalue :=
  RelationClass.JObject [
    ("from", RelationClass.JString "Ann");
    ("to", RelationClass.JString "Bob");
    ("relationType", RelationClass.JString "knows");
    ("strength", RelationClass.JNumber (RelationClass.Finite (QArith_base.Qmake 1 2)));
    ("confidence", RelationClass.JNumber (RelationClass.Finite (QArith_base.Qmake 9 10)));
    ("metadata",
     RelationClass.JObject [
       ("createdAt", RelationClass.JNumber (RelationClass.Finite (QArith_base.Qmake 1700 1)));
       ("updatedAt", RelationClass.JNumber (RelationClass.Finite (QArith_base.Qmake 1701 1)));
       ("inferredFrom", RelationClass.JArray [RelationClass.JString "r1"]) ]) ].

(** The entity has no embedding yet. *)
Definition lacksEmbedding {Vector : Type} (e : Backfill.Entity Vector) : bool :=
  match Backfill.embedding e with
  | Some _ => false
  | None => true
  end.

(** The number a count stands for; a text stands for none. *)
Definition numberOf (v : Tally) : nat :=
  match v with
  | Count n => n
  | Text _ => 0
  end.

(** The record leaves no trace in [entityTypes]: it has no entity type,
    an empty one, or the one that the setter of [Object.prototype]
    swallows. *)
Definition unseen (e : Entity) : bool :=
  negb (truthy (entityType e)) || sameType (entityType e) (Some "__proto__").

(** The sum of the numbers of a list. *)
Definition sum (l : list nat) : nat := fold_right Nat.add 0 l.

(** The comparator tells the keys apart: no key occurs twice and no two
    of them compare as equal. *)
Definition distinctUnder (localeCompare : string -> string -> Z)
  (keys : list string) : Prop :=
  NoDup keys /\
  forall a b, In a keys -> In b keys -> localeCompare a b = 0%Z -> a = b.

(** The ontology of the test graph with its properties created in another
    order. *)
Definition teamOntologyReordered : OntologyData := {|
  entityTypes := [("Project", Count 1); ("Team", Count 1); ("Person", Count 2)];
  relationTypes := [
    ("createdBy",
     [{| conn_from := Some "Project"; conn_to := Some "Team"; count := 1 |}]);
    ("isMemberOf",
     [{| conn_from := Some "Person"; conn_to := Some "Team"; count := 2 |}]) ]
|}.

(** A connection that is always established. *)
Definition sampleInitialize (db : nat) : nat * result unit := (db, Returns tt).

(** Four rows, one of them without entity type, and a database that
    counts the label queries, rejects the first and finds no record for
    the third. *)
Definition sampleEntities : list Migration.Entity :=
  [ {| Migration.name := Labels.lit "A";
       Migration.entityType := Some (Labels.lit "Person") |};
    {| Migration.name := Labels.lit "B";
       Migration.entityType := Some (Labels.lit "2nd tier") |};
    {| Migration.name := Labels.lit "C";
       Migration.entityType := None |};
    {| Migration.name := Labels.lit "D";
       Migration.entityType := Some (Labels.lit "Team") |} ].

Definition sampleFetch (db : nat)
  : nat * result (list Migration.Entity) :=
  (db, Returns sampleEntities).

Definition sampleLabelQuery (db : nat) (name label : Labels.jsstring)
  : nat * result nat :=
  (S db,
   match db with
   | 0 => Throws (Error "connection lost")
   | 2 => Returns 0
   | _ => Returns 1
   end).

(* ================================================================== *)
(** * Properties *)
(* ================================================================== *)

(** ** Strings *)

Lemma append_assoc (a b c : string) : (a ++ b) ++ c = a ++ (b ++ c).
Proof.
  induction a as [|ch a IH]; simpl; [reflexivity | now rewrite IH].
Qed.

Lemma append_empty_r (a : string) : a ++ "" = a.
Proof.
  induction a as [|ch a IH]; simpl; [reflexivity | now rewrite IH].
Qed.

Lemma joined_app (l1 l2 : list string) :
  joined (l1 ++ l2)%list = joined l1 ++ joined l2.
Proof.
  induction l1 as [|x l1 IH]; simpl; [reflexivity|].
  now rewrite IH, append_assoc.
Qed.

Lemma fold_left_append {A : Type} (f : A -> string) (l : list A) (out : string) :
  fold_left (fun out x => out ++ f x) l out = out ++ joined (map f l).
Proof.
  revert out; induction l as [|x l IH]; intro out; simpl.
  - now rewrite append_empty_r.
  - now rewrite IH, append_assoc.
Qed.

Lemma includes_joined (l : list string) (x : string) :
  In x l -> includes (joined l) x.
Proof.
  intro H. apply in_split in H as (l1 & l2 & ->).
  exists (joined l1), (joined l2).
  now rewrite joined_app.
Qed.

Lemma includes_trans (s m x : string) :
  includes s m -> includes m x -> includes s x.
Proof.
  intros (b1 & a1 & ->) (b2 & a2 & ->).
  exists (b1 ++ b2), (a2 ++ a1).
  now rewrite !append_assoc.
Qed.

Lemma includes_append_l (s t x : string) : includes s x -> includes (s ++ t) x.
Proof.
  intros (b & a & ->). exists b, (a ++ t). now rewrite !append_assoc.
Qed.

Lemma includes_append_r (s t x : string) : includes t x -> includes (s ++ t) x.
Proof.
  intros (b & a & ->). exists (s ++ b), a. now rewrite !append_assoc.
Qed.

(** ** Objects *)

Section ObjectFacts.

Context {V : Type}.
Implicit Types (o : JsObject.t V) (k : string) (v : V).

Lemma get_update_same o k v :
  JsObject.get o k <> None -> JsObject.get (JsObject.update o k v) k = Some v.
Proof.
  induction o as [|[k' v'] o IH]; simpl; intro H; [congruence|].
  destruct (String.eqb k' k) eqn:E; simpl; rewrite E; auto.
Qed.

Lemma get_update_other o k k' v :
  k <> k' -> JsObject.get (JsObject.update o k v) k' = JsObject.get o k'.
Proof.
  intro Hne. induction o as [|[k0 v0] o IH]; simpl; [reflexivity|].
  destruct (String.eqb k0 k) eqn:E; simpl.
  - apply String.eqb_eq in E; subst k0.
    destruct (String.eqb k k') eqn:E'; [|reflexivity].
    apply String.eqb_eq in E'. contradiction.
  - now rewrite IH.
Qed.

Lemma get_insert_new_same o k v :
  JsObject.get o k = None -> JsObject.get (JsObject.insert_new o k v) k = Some v.
Proof.
  induction o as [|[k' v'] o IH]; simpl; intro H.
  - now rewrite String.eqb_refl.
  - destruct (String.eqb k' k) eqn:E; [discriminate|].
    destruct (JsObject.precedes k k'); simpl.
    + now rewrite String.eqb_refl.
    + rewrite E. auto.
Qed.

Lemma get_insert_new_other o k k' v :
  k <> k' -> JsObject.get (JsObject.insert_new o k v) k' = JsObject.get o k'.
Proof.
  intro Hne. induction o as [|[k0 v0] o IH]; simpl.
  - destruct (String.eqb k k') eqn:E; [|reflexivity].
    apply String.eqb_eq in E. contradiction.
  - destruct (JsObject.precedes k k0); simpl.
    + destruct (String.eqb k k') eqn:E; [|reflexivity].
      apply String.eqb_eq in E. contradiction.
    + now rewrite IH.
Qed.

Lemma get_set_same o k v : JsObject.get (JsObject.set o k v) k = Some v.
Proof.
  unfold JsObject.set. destruct (JsObject.get o k) eqn:E.
  - apply get_update_same. congruence.
  - now apply get_insert_new_same.
Qed.

Lemma get_set_other o k k' v :
  k <> k' -> JsObject.get (JsObject.set o k v) k' = JsObject.get o k'.
Proof.
  intro Hne. unfold JsObject.set. destruct (JsObject.get o k).
  - now apply get_update_other.
  - now apply get_insert_new_other.
Qed.

Lemma get_In o k v : JsObject.get o k = Some v -> In (k, v) o.
Proof.
  induction o as [|[k' v'] o IH]; simpl; [discriminate|].
  destruct (String.eqb k' k) eqn:E.
  - apply String.eqb_eq in E. intros [= ->]. left. now subst.
  - auto.
Qed.

Lemma In_get o k v : In (k, v) o -> JsObject.get o k <> None.
Proof.
  induction o as [|[k' v'] o IH]; simpl; [tauto|].
  intros [[= -> ->]|H].
  - now rewrite String.eqb_refl.
  - destruct (String.eqb k' k); [discriminate | auto].
Qed.

(** What [o[k] = v] leaves in the object. *)
Lemma values_update o k v x :
  In x (JsObject.values (JsObject.update o k v)) ->
  x = v \/ In x (JsObject.values o).
Proof.
  unfold JsObject.values.
  induction o as [|[k' v'] o IH]; simpl; [tauto|].
  destruct (String.eqb k' k); simpl; intros [H|H]; auto.
  destruct (IH H); auto.
Qed.

Lemma values_insert_new o k v x :
  In x (JsObject.values (JsObject.insert_new o k v)) ->
  x = v \/ In x (JsObject.values o).
Proof.
  unfold JsObject.values.
  induction o as [|[k' v'] o IH]; simpl.
  - intros [H|[]]; auto.
  - destruct (JsObject.precedes k k'); simpl; intros [H|H]; auto.
    destruct (IH H); auto.
Qed.

Lemma values_set o k v x :
  In x (JsObject.values (JsObject.set o k v)) ->
  x = v \/ In x (JsObject.values o).
Proof.
  unfold JsObject.set. destruct (JsObject.get o k).
  - apply values_update.
  - apply values_insert_new.
Qed.

End ObjectFacts.

(** Array indices come first and in numeric order, whenever they are
    created; the other names keep the order of their creation. *)
Example own_property_order :
  JsObject.keys
    (JsObject.set
       (JsObject.set
          (JsObject.set (JsObject.set JsObject.empty "b" 1) "10" 2) "9" 3)
       "01" 4)
  = ["9"; "10"; "b"; "01"].
Proof. reflexivity. Qed.

(** ** Sorting *)

Section SortFacts.

Context {A : Type}.
Variable compareFn : A -> A -> result Z.

Lemma sort_insert_perm (x : A) (l r : list A) :
  sort_insert compareFn x l = Returns r -> Permutation (x :: l) r.
Proof.
  revert r; induction l as [|y l IH]; simpl; intros r H.
  - injection H as <-. apply Permutation_refl.
  - destruct (compareFn x y) as [c|e]; simpl in H; [|discriminate].
    destruct (c <=? 0)%Z.
    + injection H as <-. apply Permutation_refl.
    + destruct (sort_insert compareFn x l) as [r'|e]; simpl in H; [|discriminate].
      injection H as <-.
      eapply Permutation_trans; [apply perm_swap|].
      apply perm_skip. now apply IH.
Qed.

Lemma Array_sort_perm (l r : list A) :
  Array_sort compareFn l = Returns r -> Permutation l r.
Proof.
  revert r; induction l as [|x l IH]; simpl; intros r H.
  - injection H as <-. apply perm_nil.
  - destruct (Array_sort compareFn l) as [s|e]; simpl in H; [|discriminate].
    eapply Permutation_trans; [apply perm_skip, IH; reflexivity|].
    now apply sort_insert_perm.
Qed.

(** The elements on which the comparator, called with them first, returns
    what the pure function [cmp] computes. *)
Variable safe : A -> Prop.
Variable cmp : A -> A -> Z.
Hypothesis compareFn_safe : forall a b, safe a -> compareFn a b = Returns (cmp a b).

Lemma sort_insert_returns (x : A) (l : list A) :
  safe x -> exists r, sort_insert compareFn x l = Returns r.
Proof.
  intro Hx. induction l as [|y l [r IH]]; simpl; [eauto|].
  rewrite compareFn_safe by assumption. simpl.
  destruct (cmp x y <=? 0)%Z; [eauto|].
  rewrite IH. simpl. eauto.
Qed.

Lemma Array_sort_returns (l : list A) :
  Forall safe l -> exists r, Array_sort compareFn l = Returns r.
Proof.
  induction 1 as [|x l Hx Hl [s IH]]; simpl; [eauto|].
  rewrite IH. simpl. now apply sort_insert_returns.
Qed.

(** A consistent comparator: the sign of [cmp b a] is opposite to that of
    [cmp a b], and [cmp _ _ <= 0] is transitive. *)
Hypothesis cmp_total : forall a b, (0 < cmp a b)%Z -> (cmp b a <= 0)%Z.
Hypothesis cmp_trans :
  forall a b c, (cmp a b <= 0)%Z -> (cmp b c <= 0)%Z -> (cmp a c <= 0)%Z.

Lemma sort_insert_sorted (x : A) (l r : list A) :
  safe x -> StronglySorted (orderedBy cmp) l ->
  sort_insert compareFn x l = Returns r -> StronglySorted (orderedBy cmp) r.
Proof.
  intros Hx Hl. revert r.
  induction Hl as [|y l Hl IH Hy]; simpl; intros r H.
  - injection H as <-. repeat constructor.
  - rewrite compareFn_safe in H by assumption. simpl in H.
    destruct (cmp x y <=? 0)%Z eqn:E.
    + injection H as <-. apply Z.leb_le in E.
      constructor; [constructor; assumption|].
      constructor; [exact E|].
      eapply Forall_impl; [|exact Hy].
      intros z Hz. unfold orderedBy in *. eapply cmp_trans; eassumption.
    + destruct (sort_insert compareFn x l) as [r'|e] eqn:E'; simpl in H; [|discriminate].
      injection H as <-.
      apply Z.leb_gt in E.
      constructor; [now apply IH|].
      apply sort_insert_perm in E'.
      eapply Permutation_Forall; [exact E'|].
      constructor; [|exact Hy].
      unfold orderedBy. now apply cmp_total.
Qed.

Lemma Array_sort_sorted (l r : list A) :
  Forall safe l -> Array_sort compareFn l = Returns r -> StronglySorted (orderedBy cmp) r.
Proof.
  intro Hl. revert r. induction Hl as [|x l Hx Hl IH]; simpl; intros r H.
  - injection H as <-. constructor.
  - destruct (Array_sort compareFn l) as [s|e]; simpl in H; [|discriminate].
    eapply sort_insert_sorted; eauto.
Qed.

End SortFacts.

(** ** formatOntology *)

Section FormatFacts.

Variable localeCompare : string -> string -> Z.

Lemma compareConnections_typed (a b : Connection) :
  typedConnection a = true ->
  compareConnections localeCompare a b = Returns (connectionOrder localeCompare a b).
Proof.
  unfold typedConnection, compareConnections, connectionOrder.
  destruct (conn_from a), (conn_to a); try discriminate.
  intros _. simpl. now destruct (_ =? 0)%Z.
Qed.

Lemma groupConnections_typed (conns : list Connection) :
  Forall (fun c => typedConnection c = true) conns ->
  Forall (fun c => typedConnection c = true)
         (JsObject.values (groupConnections conns)).
Proof.
  unfold groupConnections.
  assert (G : forall acc,
             Forall (fun c => typedConnection c = true) (JsObject.values acc) ->
             Forall (fun c => typedConnection c = true) conns ->
             Forall (fun c => typedConnection c = true)
                    (JsObject.values (fold_left groupConnection conns acc))).
  { induction conns as [|c conns IH]; simpl; intros acc Hacc Hc; [exact Hacc|].
    inversion Hc as [|? ? Hc1 Hc2]; subst.
    apply IH; [|exact Hc2].
    apply Forall_forall. intros x Hx.
    unfold groupConnection in Hx.
    destruct (JsObject.get acc (connectionKey c)) as [g|] eqn:E;
      apply values_set in Hx as [->|Hx].
    - apply get_In in E.
      assert (Hg : typedConnection g = true).
      { rewrite Forall_forall in Hacc. apply Hacc.
        unfold JsObject.values. apply in_map_iff. now exists (connectionKey c, g). }
      unfold typedConnection in *. simpl. exact Hg.
    - rewrite Forall_forall in Hacc. now apply Hacc.
    - exact Hc1.
    - rewrite Forall_forall in Hacc. now apply Hacc. }
  intro H. apply G; [constructor | exact H].
Qed.

Lemma formatRelationType_typed (output : string) (entry : string * list Connection) :
  forallb typedConnection (snd entry) = true ->
  exists cs,
    printedGroups localeCompare entry (fst entry, cs) /\
    formatRelationType localeCompare output entry
    = Returns (output ++ joined (map (relationLine (fst entry)) cs)).
Proof.
  intro Ht. rewrite forallb_forall in Ht. apply Forall_forall in Ht.
  apply groupConnections_typed in Ht.
  destruct (Array_sort_returns (compareConnections localeCompare)
              (fun c => typedConnection c = true) (connectionOrder localeCompare)
              compareConnections_typed _ Ht) as [cs Hcs].
  exists cs. split; [split; [reflexivity | exact Hcs]|].
  unfold formatRelationType. rewrite Hcs. simpl.
  now rewrite fold_left_append.
Qed.

Lemma forEach_formatRelationType (sorted : list (string * list Connection))
  (output : string) :
  forallb (fun entry => forallb typedConnection (snd entry)) sorted = true ->
  exists groups,
    Forall2 (printedGroups localeCompare) sorted groups /\
    forEachM (formatRelationType localeCompare) sorted output
    = Returns (output ++ relationBlock groups).
Proof.
  revert output. induction sorted as [|entry sorted IH]; simpl; intros output Ht.
  - exists []. split; [constructor|]. unfold relationBlock. simpl.
    now rewrite append_empty_r.
  - apply andb_true_iff in Ht as [Ht1 Ht2].
    destruct (formatRelationType_typed output entry Ht1) as (cs & Hg & ->).
    simpl.
    destruct (IH (output ++ joined (map (relationLine (fst entry)) cs)) Ht2)
      as (groups & HF & ->).
    exists ((fst entry, cs) :: groups). split; [now constructor|].
    unfold relationBlock. simpl. now rewrite append_assoc.
Qed.

Lemma compareKeys_returns {V : Type} (a b : string * V) :
  True -> compareKeys localeCompare a b = Returns (keyOrder localeCompare a b).
Proof. reflexivity. Qed.

Lemma sort_keys_returns {V : Type} (l : list (string * V)) :
  exists r, Array_sort (compareKeys localeCompare) l = Returns r.
Proof.
  apply (Array_sort_returns _ (fun _ => True) (keyOrder localeCompare) compareKeys_returns).
  apply Forall_forall. trivial.
Qed.

Lemma forallb_perm {B : Type} (p : B -> bool) (l l' : list B) :
  Permutation l l' -> forallb p l = true -> forallb p l' = true.
Proof.
  intros HP H. apply forallb_forall. intros x Hx.
  rewrite forallb_forall in H. apply H.
  eapply Permutation_in; [apply Permutation_sym; exact HP | exact Hx].
Qed.

(** The text of [formatOntology], from the sorted entries. *)
Lemma formatOntology_shape (o : OntologyData) :
  typedOntology o = true ->
  exists es rs groups,
    Array_sort (compareKeys localeCompare) (JsObject.entries (entityTypes o))
    = Returns es /\
    Array_sort (compareKeys localeCompare) (JsObject.entries (relationTypes o))
    = Returns rs /\
    Forall2 (printedGroups localeCompare) rs groups /\
    formatOntology localeCompare o = Returns (template es groups).
Proof.
  intro Ht. unfold typedOntology in Ht.
  destruct (sort_keys_returns (JsObject.entries (entityTypes o))) as [es Hes].
  destruct (sort_keys_returns (JsObject.entries (relationTypes o))) as [rs Hrs].
  assert (Hrt : forallb (fun entry => forallb typedConnection (snd entry)) rs = true).
  { eapply forallb_perm; [|exact Ht]. now apply Array_sort_perm in Hrs. }
  destruct (forEach_formatRelationType rs
              (match es with
               | [] => "No entity types found in the knowledge graph." ++ LF ++ LF
               | _ => entityBlock es ++ LF
               end) Hrt) as (groups & HF & Hout).
  exists es, rs, groups. repeat split; try assumption.
  pose proof (Permutation_length (Array_sort_perm _ _ _ Hes)) as Les.
  pose proof (Permutation_length (Array_sort_perm _ _ _ Hrs)) as Lrs.
  pose proof (Forall2_length HF) as Lg.
  unfold formatOntology, template.
  unfold JsObject.entries in *.
  destruct (entityTypes o) as [|e0 eo]; destruct (relationTypes o) as [|r0 ro];
    destruct es as [|e1 es']; destruct rs as [|r1 rs'];
    destruct groups as [|g1 groups']; simpl in Les, Lrs, Lg; try discriminate;
    cbn [List.length Nat.eqb Nat.ltb Nat.leb andb];
    rewrite ?Hes, ?Hrs; cbn [bind]; rewrite ?fold_left_append;
    change (append "") with (fun s : string => s); cbv beta.
  - reflexivity.
  - exact Hout.
  - reflexivity.
  - exact Hout.
Qed.

End FormatFacts.

(** ** The order of the printed lines *)

(** Sortedness by type only looks at the keys. *)
Lemma Forall_same_keys (localeCompare : string -> string -> Z) {V W : Type}
  (a : string * V) (a' : string * W) (l : list (string * V))
  (l' : list (string * W)) :
  fst a' = fst a -> map fst l' = map fst l ->
  Forall (byType localeCompare a) l -> Forall (byType localeCompare a') l'.
Proof.
  intros Ha Hk H. revert l' Hk.
  induction H as [|x l Hx H IH]; intros [|x' l'] Hk; simpl in Hk;
    try discriminate.
  - constructor.
  - injection Hk as Hx' Hk. constructor.
    + unfold byType in *. now rewrite Ha, Hx'.
    + now apply IH.
Qed.

Lemma StronglySorted_same_keys (localeCompare : string -> string -> Z)
  {V W : Type} (l : list (string * V)) (l' : list (string * W)) :
  map fst l' = map fst l ->
  StronglySorted (byType localeCompare) l ->
  StronglySorted (byType localeCompare) l'.
Proof.
  intros Hk H. revert l' Hk.
  induction H as [|x l H IH Hx]; intros [|x' l'] Hk; simpl in Hk;
    try discriminate.
  - constructor.
  - injection Hk as Hx' Hk. constructor.
    + now apply IH.
    + eapply Forall_same_keys; eassumption.
Qed.

(** ** What is printed for a relation type *)

Section KeysOfObjects.

Context {V : Type}.
Implicit Types (o : JsObject.t V) (k : string) (v : V).

Lemma get_None_keys o k : JsObject.get o k = None -> ~ In k (JsObject.keys o).
Proof.
  unfold JsObject.keys.
  induction o as [|[k' v'] o IH]; simpl; [tauto|].
  destruct (String.eqb_spec k' k) as [->|Hne]; [discriminate|].
  intros H [E|I]; [contradiction | now apply IH].
Qed.

Lemma keys_update o k v : JsObject.keys (JsObject.update o k v) = JsObject.keys o.
Proof.
  unfold JsObject.keys.
  induction o as [|[k' v'] o IH]; simpl; [reflexivity|].
  destruct (String.eqb k' k); simpl; [reflexivity | now rewrite IH].
Qed.

Lemma keys_insert_new o k v :
  Permutation (k :: JsObject.keys o) (JsObject.keys (JsObject.insert_new o k v)).
Proof.
  unfold JsObject.keys.
  induction o as [|[k' v'] o IH]; simpl; [apply Permutation_refl|].
  destruct (JsObject.precedes k k'); simpl; [apply Permutation_refl|].
  eapply perm_trans; [apply perm_swap|]. now apply perm_skip.
Qed.

Lemma NoDup_keys_set o k v :
  NoDup (JsObject.keys o) -> NoDup (JsObject.keys (JsObject.set o k v)).
Proof.
  intro N. unfold JsObject.set. destruct (JsObject.get o k) eqn:G.
  - now rewrite keys_update.
  - eapply Permutation_NoDup; [apply keys_insert_new|].
    constructor; [now apply get_None_keys | exact N].
Qed.

Lemma In_get_NoDup o k v :
  NoDup (JsObject.keys o) -> In (k, v) o -> JsObject.get o k = Some v.
Proof.
  unfold JsObject.keys.
  induction o as [|[k' v'] o IH]; simpl; [tauto|].
  intros N H. inversion N as [|? ? Nk No]; subst.
  destruct H as [[= -> ->]|H].
  - now rewrite String.eqb_refl.
  - destruct (String.eqb_spec k' k) as [->|_]; [|now apply IH].
    exfalso. apply Nk. apply (in_map fst) in H. exact H.
Qed.

End KeysOfObjects.

Lemma get_fold_groupConnection (conns : list Connection)
  (acc : JsObject.t Connection) (k : string) :
  JsObject.get (fold_left groupConnection conns acc) k
  = match JsObject.get acc k with
    | Some g =>
        Some {| conn_from := conn_from g; conn_to := conn_to g;
                count := count g + totalCount (sharing k conns) |}
    | None => merged (sharing k conns)
    end.
Proof.
  revert acc. induction conns as [|c conns IH]; intro acc.
  - simpl. destruct (JsObject.get acc k) as [[f t n]|]; [|reflexivity].
    simpl. now rewrite Nat.add_0_r.
  - cbn [fold_left]. rewrite IH. unfold sharing at 3 4. cbn [filter].
    fold (sharing k conns). unfold groupConnection.
    change (connectionKey c) with (pairKey c).
    destruct (String.eqb_spec (pairKey c) k) as [E|Hne].
    + rewrite E. destruct (JsObject.get acc k) as [g|] eqn:G.
      * rewrite get_set_same. cbn [conn_from conn_to count totalCount fold_right].
        f_equal. f_equal. unfold totalCount. lia.
      * rewrite get_set_same. reflexivity.
    + destruct (JsObject.get acc (pairKey c)) as [g|];
        now rewrite get_set_other.
Qed.

Lemma NoDup_keys_fold_groupConnection (conns : list Connection)
  (acc : JsObject.t Connection) :
  NoDup (JsObject.keys acc) ->
  NoDup (JsObject.keys (fold_left groupConnection conns acc)).
Proof.
  revert acc. induction conns as [|c conns IH]; intros acc N; [exact N|].
  cbn [fold_left]. apply IH. unfold groupConnection.
  destruct (JsObject.get acc (connectionKey c)); now apply NoDup_keys_set.
Qed.

Lemma merged_key (k : string) (conns : list Connection) (c : Connection) :
  merged (sharing k conns) = Some c -> pairKey c = k.
Proof.
  unfold merged. destruct (sharing k conns) as [|first rest] eqn:S; [discriminate|].
  intros [= <-]. unfold pairKey at 1. cbn [conn_from conn_to].
  fold (pairKey first).
  assert (I : In first (sharing k conns)) by (rewrite S; now left).
  apply filter_In in I as [_ I]. now apply String.eqb_eq in I.
Qed.

(** The grouped connections are the merged classes of the stored ones,
    each once. *)
Lemma groupConnections_merged (conns : list Connection) :
  NoDup (map pairKey (JsObject.values (groupConnections conns))) /\
  forall c,
    In c (JsObject.values (groupConnections conns)) <->
    merged (sharing (pairKey c) conns) = Some c.
Proof.
  assert (N : NoDup (JsObject.keys (groupConnections conns)))
    by (apply NoDup_keys_fold_groupConnection; constructor).
  assert (G : forall k,
             JsObject.get (groupConnections conns) k = merged (sharing k conns))
    by (intro k; unfold groupConnections; now rewrite get_fold_groupConnection).
  assert (K : forall kc, In kc (groupConnections conns) -> pairKey (snd kc) = fst kc).
  { intros [k c] H. apply (In_get_NoDup _ _ _ N) in H. rewrite G in H.
    now apply merged_key in H. }
  split.
  - unfold JsObject.values. rewrite map_map.
    rewrite (map_ext_in _ fst _ K). exact N.
  - intro c. split.
    + unfold JsObject.values. intro H.
      apply in_map_iff in H as ([k c'] & E & H). simpl in E. subst c'.
      pose proof (K _ H) as Kc. simpl in Kc. rewrite Kc.
      rewrite <- G. now apply In_get_NoDup.
    + intro H. rewrite <- G in H. apply get_In in H.
      unfold JsObject.values. now apply (in_map snd) in H.
Qed.

Section ConsistentComparator.

Variable localeCompare : string -> string -> Z.

Hypothesis localeCompare_sign :
  forall a b, Z.sgn (localeCompare b a) = (- Z.sgn (localeCompare a b))%Z.
Hypothesis localeCompare_trans :
  forall a b c, (localeCompare a b <= 0)%Z -> (localeCompare b c <= 0)%Z ->
                (localeCompare a c <= 0)%Z.

Lemma localeCompare_flip (a b : string) :
  ((localeCompare a b < 0 <-> 0 < localeCompare b a) /\
   (localeCompare a b = 0 <-> localeCompare b a = 0))%Z.
Proof.
  pose proof (localeCompare_sign a b) as H.
  pose proof (Z.sgn_spec (localeCompare a b)) as Ha.
  pose proof (Z.sgn_spec (localeCompare b a)) as Hb.
  lia.
Qed.

Lemma keyOrder_total {V : Type} (a b : string * V) :
  (0 < keyOrder localeCompare a b)%Z -> (keyOrder localeCompare b a <= 0)%Z.
Proof.
  unfold keyOrder. pose proof (localeCompare_flip (fst b) (fst a)). lia.
Qed.

Lemma keyOrder_trans {V : Type} (a b c : string * V) :
  (keyOrder localeCompare a b <= 0)%Z -> (keyOrder localeCompare b c <= 0)%Z ->
  (keyOrder localeCompare a c <= 0)%Z.
Proof. unfold keyOrder. apply localeCompare_trans. Qed.

Lemma connectionOrder_byFromTo (a b : Connection) :
  (connectionOrder localeCompare a b <= 0)%Z <-> byFromTo localeCompare a b.
Proof.
  unfold connectionOrder, byFromTo.
  destruct (Z.eqb_spec
              (localeCompare (ToString (conn_from a)) (ToString (conn_from b))) 0);
    lia.
Qed.

Lemma connectionOrder_total (a b : Connection) :
  (0 < connectionOrder localeCompare a b)%Z ->
  (connectionOrder localeCompare b a <= 0)%Z.
Proof.
  unfold connectionOrder.
  pose proof (localeCompare_flip (ToString (conn_from a)) (ToString (conn_from b))).
  pose proof (localeCompare_flip (ToString (conn_to a)) (ToString (conn_to b))).
  destruct (Z.eqb_spec
              (localeCompare (ToString (conn_from a)) (ToString (conn_from b))) 0);
    destruct (Z.eqb_spec
                (localeCompare (ToString (conn_from b)) (ToString (conn_from a))) 0);
    lia.
Qed.

Lemma byFromTo_trans (a b c : Connection) :
  byFromTo localeCompare a b -> byFromTo localeCompare b c ->
  byFromTo localeCompare a c.
Proof.
  unfold byFromTo.
  set (fa := ToString (conn_from a)). set (fb := ToString (conn_from b)).
  set (fc := ToString (conn_from c)).
  pose proof (localeCompare_flip fa fb). pose proof (localeCompare_flip fb fc).
  pose proof (localeCompare_flip fa fc).
  pose proof (localeCompare_trans fa fb fc).
  pose proof (localeCompare_trans fc fa fb).
  pose proof (localeCompare_trans fb fc fa).
  pose proof (localeCompare_trans fc fb fa).
  pose proof (localeCompare_trans (ToString (conn_to a)) (ToString (conn_to b))
                (ToString (conn_to c))).
  lia.
Qed.

Lemma connectionOrder_trans (a b c : Connection) :
  (connectionOrder localeCompare a b <= 0)%Z ->
  (connectionOrder localeCompare b c <= 0)%Z ->
  (connectionOrder localeCompare a c <= 0)%Z.
Proof.
  rewrite !connectionOrder_byFromTo. apply byFromTo_trans.
Qed.

Lemma printedGroups_groupsOf (entry g : string * list Connection) :
  forallb typedConnection (snd entry) = true ->
  printedGroups localeCompare entry g -> groupsOf localeCompare entry g.
Proof.
  intros Ht [Hk Hs]. split; [exact Hk|].
  pose proof (Array_sort_perm _ _ _ Hs) as P.
  destruct (groupConnections_merged (snd entry)) as [N M].
  split; [|split].
  - eapply Permutation_NoDup; [apply Permutation_map; exact P | exact N].
  - intro c. rewrite <- M. split; apply Permutation_in;
      [apply Permutation_sym|]; exact P.
  - rewrite forallb_forall in Ht. apply Forall_forall in Ht.
    apply groupConnections_typed in Ht.
    pose proof (Array_sort_sorted (compareConnections localeCompare)
                  (fun c => typedConnection c = true)
                  (connectionOrder localeCompare)
                  (compareConnections_typed localeCompare)
                  connectionOrder_total connectionOrder_trans _ _ Ht Hs) as S.
    clear Hs P N M. induction S as [|x l S IH HF]; constructor; [exact IH|].
    eapply Forall_impl; [|exact HF].
    intros y Hy. now apply connectionOrder_byFromTo.
Qed.

(** C2, amended.  For an ontology whose connections carry both types, as
    the parameter type of [formatOntology] declares, and a consistent
    comparator, [formatOntology] emits the fixed template: the text is
    [template es groups], where [es] lists the entity-type entries sorted
    by type and [groups] the relation types sorted by type, each with one
    connection for every "from→to" text among its stored connections,
    those that share it merged and their counts added, sorted by
    (from, to).  [template] puts one line of the fixed wording per entry,
    a single empty line before the relation part, the sentence for an
    empty graph when both lists are empty, and the sentence for the
    missing half when one of them is. *)
Theorem formatOntology_template (o : OntologyData) :
  typedOntology o = true ->
  exists es groups,
    Permutation (JsObject.entries (entityTypes o)) es /\
    StronglySorted (byType localeCompare) es /\
    (exists rs,
        Permutation (JsObject.entries (relationTypes o)) rs /\
        Forall2 (groupsOf localeCompare) rs groups) /\
    StronglySorted (byType localeCompare) groups /\
    formatOntology localeCompare o = Returns (template es groups).
Proof.
  intro Ht.
  destruct (formatOntology_shape localeCompare o Ht)
    as (es & rs & groups & Hes & Hrs & HF & Hout).
  assert (KS : forall (V : Type) (l r : list (string * V)),
             Array_sort (compareKeys localeCompare) l = Returns r ->
             StronglySorted (byType localeCompare) r).
  { intros V l r H.
    apply (Array_sort_sorted (compareKeys localeCompare) (fun _ => True)
             (keyOrder localeCompare) (compareKeys_returns localeCompare)
             keyOrder_total keyOrder_trans l r); [|exact H].
    apply Forall_forall. trivial. }
  pose proof (Array_sort_perm _ _ _ Hrs) as Prs.
  assert (Hrt : forallb (fun entry => forallb typedConnection (snd entry)) rs = true).
  { eapply forallb_perm; [exact Prs | exact Ht]. }
  exists es, groups. split; [eapply Array_sort_perm; exact Hes|].
  split; [eapply KS; exact Hes|].
  split; [exists rs; split; [exact Prs|]|].
  - clear Hout Hrs Prs. induction HF as [|entry g rs' groups' Hg HF IH];
      [constructor|].
    simpl in Hrt. apply andb_true_iff in Hrt as [H1 H2].
    constructor; [now apply printedGroups_groupsOf | now apply IH].
  - split; [|exact Hout].
    apply KS in Hrs.
    assert (Hk : map fst groups = map fst rs).
    { clear Hrs Hout Hrt Prs.
      induction HF as [|entry g rs' groups' [Hg _] HF IH]; simpl; [reflexivity|].
      now rewrite Hg, IH. }
    eapply StronglySorted_same_keys; eassumption.
Qed.

End ConsistentComparator.

(** ** A consistent comparator *)

Lemma codeUnitCompare_sign (a b : string) :
  Z.sgn (codeUnitCompare b a) = (- Z.sgn (codeUnitCompare a b))%Z.
Proof.
  unfold codeUnitCompare. rewrite (String.compare_antisym a b).
  now destruct (String.compare b a).
Qed.

Lemma codeUnitCompare_le (a b : string) :
  (codeUnitCompare a b <= 0)%Z <-> a = b \/ OrderedTypeEx.String_as_OT.lt a b.
Proof.
  unfold codeUnitCompare.
  pose proof (OrderedTypeEx.String_as_OT.cmp_eq a b) as He.
  pose proof (OrderedTypeEx.String_as_OT.cmp_lt a b) as Hl.
  unfold OrderedTypeEx.String_as_OT.cmp in *.
  destruct (String.compare a b); split; intro H; try lia.
  - left. now apply He.
  - right. now apply Hl.
  - exfalso. destruct H as [H|H]; [apply He in H | apply Hl in H]; discriminate.
Qed.

Lemma codeUnitCompare_trans (a b c : string) :
  (codeUnitCompare a b <= 0)%Z -> (codeUnitCompare b c <= 0)%Z ->
  (codeUnitCompare a c <= 0)%Z.
Proof.
  rewrite !codeUnitCompare_le.
  intros [->|H1] [->|H2]; auto.
  right. eapply OrderedTypeEx.String_as_OT.lt_trans; eassumption.
Qed.

(** C2, the claim as stated fails.  [looseOntology] is the ontology that
    [extractOntology] returns for [looseGraph]; it has two connections
    without a [from] type under one relation type, and sorting them makes
    the comparator read [localeCompare] off [undefined]: [formatOntology]
    is left by a [TypeError], whatever the comparator. *)
Lemma formatOntology_untyped_connection :
  extractOntology looseGraph = Returns looseOntology /\
  typedOntology looseOntology = false /\
  forall localeCompare,
    formatOntology localeCompare looseOntology
    = Throws (TypeError "Cannot read properties of undefined (reading 'localeCompare')").
Proof.
  split; [reflexivity|]. split; [reflexivity|].
  intro localeCompare. cbv -[Z.leb].
  destruct (localeCompare "Person" "Team" <=? 0)%Z; reflexivity.
Qed.

(** The theorem applies to the ontology of the test graph under the
    code-unit comparator. *)
Lemma formatOntology_template_witness :
  typedOntology teamOntology = true /\
  exists es groups,
    Permutation (JsObject.entries (entityTypes teamOntology)) es /\
    StronglySorted (byType codeUnitCompare) es /\
    (exists rs,
        Permutation (JsObject.entries (relationTypes teamOntology)) rs /\
        Forall2 (groupsOf codeUnitCompare) rs groups) /\
    StronglySorted (byType codeUnitCompare) groups /\
    formatOntology codeUnitCompare teamOntology = Returns (template es groups).
Proof.
  split; [reflexivity|].
  exact (formatOntology_template codeUnitCompare codeUnitCompare_sign
           codeUnitCompare_trans teamOntology eq_refl).
Defined.

(** The text for the test graph, and for the empty and the half-empty
    ontologies. *)
Example formatOntology_teamOntology :
  formatOntology codeUnitCompare teamOntology
  = Returns
      ("EntityType: Person (2)" ++ LF ++
       "EntityType: Project (1)" ++ LF ++
       "EntityType: Team (1)" ++ LF ++
       LF ++
       "RelationType: createdBy (EntityType: Project → EntityType: Team) (1)" ++ LF ++
       "RelationType: isMemberOf (EntityType: Person → EntityType: Team) (2)" ++ LF).
Proof. reflexivity. Qed.

Example formatOntology_empty (localeCompare : string -> string -> Z) :
  formatOntology localeCompare {| entityTypes := []; relationTypes := [] |}
  = Returns "No entities or relations found in the knowledge graph.".
Proof. reflexivity. Qed.

(** The empty graph of the handler's test. *)
Example handleGetOntology_empty_graph (localeCompare : string -> string -> Z) :
  handleGetOntology localeCompare {| entities := Some []; relations := Some [] |}
  = Returns "No entities or relations found in the knowledge graph.".
Proof. reflexivity. Qed.

Example formatOntology_no_relations (localeCompare : string -> string -> Z) :
  formatOntology localeCompare
    {| entityTypes := [("Team", Count 1)]; relationTypes := [] |}
  = Returns ("EntityType: Team (1)" ++ LF ++ LF ++
             "No relation types found in the knowledge graph.").
Proof. reflexivity. Qed.

Example formatOntology_no_entities (localeCompare : string -> string -> Z) :
  formatOntology localeCompare
    {| entityTypes := [];
       relationTypes :=
         [("knows", [{| conn_from := Some "A"; conn_to := Some "B"; count := 3 |}])] |}
  = Returns ("No entity types found in the knowledge graph." ++ LF ++ LF ++
             "RelationType: knows (EntityType: A → EntityType: B) (3)" ++ LF).
Proof. reflexivity. Qed.

(** ** The test graph *)

Lemma Forall2_In_left {B C : Type} (R : B -> C -> Prop) (l : list B)
  (l' : list C) (x : B) :
  Forall2 R l l' -> In x l -> exists y, In y l' /\ R x y.
Proof.
  induction 1 as [|a b l l' Hab HF IH]; simpl; [tauto|].
  intros [->|Hx].
  - exists b. auto.
  - destruct (IH Hx) as (y & Hy & HR). exists y. auto.
Qed.

Section TeamGraph.

Variable localeCompare : string -> string -> Z.

Lemma includes_entityLine (es : list (string * Tally))
  (groups : list (string * list Connection)) (entry : string * Tally) :
  In entry es ->
  includes (template es groups) (entityTypeLine entry).
Proof.
  intro H. unfold template.
  assert (I : includes (entityBlock es ++ LF) (entityLine entry)).
  { apply includes_append_l. apply includes_joined. now apply in_map. }
  destruct es as [|e es]; [destruct H|].
  destruct groups; now apply includes_append_l.
Qed.

Lemma includes_relationLine (es : list (string * Tally))
  (groups : list (string * list Connection)) (g : string * list Connection)
  (conn : Connection) :
  In g groups -> In conn (snd g) ->
  includes (template es groups) (relationTypeLine (fst g) conn).
Proof.
  intros Hg Hc. unfold template.
  assert (I : includes (relationBlock groups) (relationTypeLine (fst g) conn)).
  { unfold relationBlock.
    eapply includes_trans.
    - apply includes_joined.
      apply (in_map (fun g => joined (map (relationTypeLine (fst g)) (snd g)))).
      exact Hg.
    - apply includes_joined. now apply in_map. }
  destruct groups as [|g0 groups]; [destruct Hg|].
  destruct es; now apply includes_append_r.
Qed.

(** C3.  For the graph of the test, whatever the comparator,
    [extractOntology] counts two Person entities, one Team and one
    Project, and the text of the handler contains the three entity-type
    lines and the two relation-type lines with their counts. *)
Theorem teamGraph_ontology :
  (exists o,
      extractOntology teamGraph = Returns o /\
      entityTypes o
      = [("Person", Count 2); ("Team", Count 1); ("Project", Count 1)]) /\
  exists text,
    handleGetOntology localeCompare teamGraph = Returns text /\
    includes text "EntityType: Person (2)" /\
    includes text "EntityType: Team (1)" /\
    includes text "EntityType: Project (1)" /\
    includes text
      "RelationType: isMemberOf (EntityType: Person → EntityType: Team) (2)" /\
    includes text
      "RelationType: createdBy (EntityType: Project → EntityType: Team) (1)".
Proof.
  assert (E : extractOntology teamGraph = Returns teamOntology) by reflexivity.
  split; [exists teamOntology; split; [exact E | reflexivity]|].
  unfold handleGetOntology. rewrite E. simpl bind.
  destruct (formatOntology_shape localeCompare teamOntology eq_refl)
    as (es & rs & groups & Hes & Hrs & HF & ->).
  apply Array_sort_perm in Hes. apply Array_sort_perm in Hrs.
  exists (template es groups). split; [reflexivity|].
  assert (EL : forall entry, In entry (entityTypes teamOntology) ->
                 includes (template es groups) (entityTypeLine entry)).
  { intros entry H. apply includes_entityLine.
    eapply Permutation_in; [exact Hes | exact H]. }
  assert (RL : forall type conn,
             In (type, [conn]) (relationTypes teamOntology) ->
             includes (template es groups) (relationTypeLine type conn)).
  { intros type conn H.
    assert (Hr : In (type, [conn]) rs)
      by (eapply Permutation_in; [exact Hrs | exact H]).
    destruct (Forall2_In_left _ _ _ _ HF Hr) as (g & Hg & Hk & Hs).
    simpl in Hk, Hs. rewrite <- Hk.
    apply includes_relationLine; [exact Hg|].
    unfold groupConnections in Hs. simpl in Hs.
    injection Hs as <-. now left. }
  repeat split.
  - eapply includes_trans; [apply (EL ("Person", Count 2)); simpl; auto|].
    exists "", LF. reflexivity.
  - eapply includes_trans; [apply (EL ("Team", Count 1)); simpl; auto|].
    exists "", LF. reflexivity.
  - eapply includes_trans; [apply (EL ("Project", Count 1)); simpl; auto|].
    exists "", LF. reflexivity.
  - eapply includes_trans;
      [apply (RL "isMemberOf"
                {| conn_from := Some "Person"; conn_to := Some "Team"; count := 2 |});
       simpl; auto|].
    exists "", LF. reflexivity.
  - eapply includes_trans;
      [apply (RL "createdBy"
                {| conn_from := Some "Project"; conn_to := Some "Team"; count := 1 |});
       simpl; auto|].
    exists "", LF. reflexivity.
Qed.

End TeamGraph.

(** ** extractOntology: the relation types *)

Lemma option_string_eqb_eq (a b : option string) :
  option_string_eqb a b = true <-> a = b.
Proof.
  destruct a as [a|], b as [b|]; simpl; try (split; congruence).
  rewrite String.eqb_eq. split; congruence.
Qed.

Lemma sameConnection_eq (ft tt : option string) (c : Connection) :
  sameConnection ft tt c = true <-> conn_from c = ft /\ conn_to c = tt.
Proof.
  unfold sameConnection. now rewrite andb_true_iff, !option_string_eqb_eq.
Qed.

Lemma sameConnection_other (ft tt ft' tt' : option string) (c : Connection) :
  ~ (ft = ft' /\ tt = tt') ->
  sameConnection ft tt c = true -> sameConnection ft' tt' c = false.
Proof.
  intros Hne H. apply sameConnection_eq in H as [<- <-].
  destruct (sameConnection ft' tt' c) eqn:E; [|reflexivity].
  apply sameConnection_eq in E as [E1 E2]. now destruct Hne.
Qed.

Lemma tally_incrementFirst_same (ft tt : option string) (l : list Connection) :
  find (sameConnection ft tt) l <> None ->
  map count (filter (sameConnection ft tt)
               (incrementFirst (sameConnection ft tt) l))
  = bump (map count (filter (sameConnection ft tt) l)).
Proof.
  induction l as [|c l IH]; simpl; [congruence|].
  destruct (sameConnection ft tt c) eqn:E; simpl; intro H.
  - assert (E' : sameConnection ft tt
                   {| conn_from := conn_from c; conn_to := conn_to c;
                      count := S (count c) |} = true) by exact E.
    now rewrite E'.
  - rewrite E. now apply IH.
Qed.

Lemma filter_incrementFirst_other (ft tt ft' tt' : option string)
  (l : list Connection) :
  ~ (ft = ft' /\ tt = tt') ->
  filter (sameConnection ft' tt') (incrementFirst (sameConnection ft tt) l)
  = filter (sameConnection ft' tt') l.
Proof.
  intro Hne. induction l as [|c l IH]; simpl; [reflexivity|].
  destruct (sameConnection ft tt c) eqn:E; simpl.
  - assert (E' : sameConnection ft' tt'
                   {| conn_from := conn_from c; conn_to := conn_to c;
                      count := S (count c) |} = sameConnection ft' tt' c)
      by reflexivity.
    rewrite E'. now rewrite (sameConnection_other _ _ _ _ _ Hne E).
  - now rewrite IH.
Qed.

Lemma find_none_filter {B : Type} (p : B -> bool) (l : list B) :
  find p l = None -> filter p l = [].
Proof.
  induction l as [|x l IH]; simpl; [reflexivity|].
  destruct (p x); [discriminate | exact IH].
Qed.

Lemma connectionsOf_set_same (m : JsObject.t (list Connection)) (rt : string)
  (l : list Connection) :
  connectionsOf (JsObject.set m rt l) rt = l.
Proof. unfold connectionsOf. now rewrite get_set_same. Qed.

Lemma connectionsOf_set_other (m : JsObject.t (list Connection))
  (rt rt' : string) (l : list Connection) :
  rt <> rt' -> connectionsOf (JsObject.set m rt l) rt' = connectionsOf m rt'.
Proof. intro H. unfold connectionsOf. now rewrite get_set_other. Qed.

(** Recording a connection adds one occurrence to its own triple and
    leaves every other triple as it was. *)
Lemma tally_recordConnection (m : JsObject.t (list Connection))
  (rt0 : string) (ft0 tt0 : option string) (rt : string) (ft tt : option string) :
  tally (recordPlain m rt0 ft0 tt0) rt ft tt
  = if String.eqb rt0 rt && option_string_eqb ft0 ft && option_string_eqb tt0 tt
    then bump (tally m rt ft tt)
    else tally m rt ft tt.
Proof.
  unfold tally, recordPlain.
  set (new := {| conn_from := ft0; conn_to := tt0; count := 1 |}).
  destruct (String.eqb_spec rt0 rt) as [<-|Hrt].
  - (* the relation type that is updated *)
    assert (Hnew : sameConnection ft tt new
                   = option_string_eqb ft0 ft && option_string_eqb tt0 tt)
      by reflexivity.
    assert (Hsame : option_string_eqb ft0 ft && option_string_eqb tt0 tt = true
                    -> ft0 = ft /\ tt0 = tt).
    { rewrite andb_true_iff, !option_string_eqb_eq. tauto. }
    assert (Hother : option_string_eqb ft0 ft && option_string_eqb tt0 tt = false
                     -> ~ (ft0 = ft /\ tt0 = tt)).
    { intros H [-> ->].
      assert (T : forall a, option_string_eqb a a = true)
        by (intro a; now apply option_string_eqb_eq).
      now rewrite !T in H. }
    simpl andb.
    destruct (JsObject.get m rt0) as [l|] eqn:G.
    + rewrite G.
      destruct (find (sameConnection ft0 tt0) l) eqn:F;
        rewrite connectionsOf_set_same; unfold connectionsOf; rewrite G.
      * destruct (option_string_eqb ft0 ft && option_string_eqb tt0 tt) eqn:E.
        -- destruct (Hsame eq_refl) as [<- <-].
           apply tally_incrementFirst_same. congruence.
        -- now rewrite (filter_incrementFirst_other _ _ _ _ _ (Hother eq_refl)).
      * unfold push. rewrite filter_app, map_app. simpl. rewrite Hnew.
        destruct (option_string_eqb ft0 ft && option_string_eqb tt0 tt) eqn:E.
        -- destruct (Hsame eq_refl) as [<- <-].
           now rewrite (find_none_filter _ _ F).
        -- simpl. now rewrite app_nil_r.
    + rewrite get_set_same. simpl find. cbv iota.
      rewrite connectionsOf_set_same. unfold connectionsOf. rewrite G.
      unfold push. simpl. rewrite Hnew.
      now destruct (option_string_eqb ft0 ft && option_string_eqb tt0 tt).
  - (* another relation type *)
    simpl andb.
    assert (K : forall m' l, connectionsOf (JsObject.set m' rt0 l) rt
                             = connectionsOf m' rt)
      by (intros; now apply connectionsOf_set_other).
    destruct (JsObject.get m rt0) as [l|] eqn:G.
    + rewrite G. destruct (find (sameConnection ft0 tt0) l); now rewrite K.
    + rewrite get_set_same. simpl find. cbv iota. now rewrite !K.
Qed.

(** The entries counted by [tally] run from [ft] to [tt]. *)
Lemma filter_sameConnection (ft tt : option string) (l : list Connection) :
  filter (sameConnection ft tt) l
  = map (fun n => {| conn_from := ft; conn_to := tt; count := n |})
        (map count (filter (sameConnection ft tt) l)).
Proof.
  induction l as [|c l IH]; simpl; [reflexivity|].
  destruct (sameConnection ft tt c) eqn:E; [|exact IH].
  simpl. rewrite <- IH. f_equal.
  apply sameConnection_eq in E as [<- <-]. now destruct c.
Qed.

Lemma iter_bump (n : nat) :
  Nat.iter n bump [] = match n with 0 => [] | _ => [n] end.
Proof.
  induction n as [|n IH]; simpl; [reflexivity|].
  rewrite IH. now destruct n.
Qed.

Lemma iter_bump_swap (n : nat) (l : list nat) :
  Nat.iter n bump (bump l) = bump (Nat.iter n bump l).
Proof.
  induction n as [|n IH]; simpl; [reflexivity | now rewrite IH].
Qed.

(** [graph.entities.find] returns the record the name resolves to. *)
Lemma findEntity_resolve (es : list Entity) (n : string) :
  findEntity es n = resolve es n.
Proof.
  unfold findEntity. induction es as [|e es IH]; simpl; [reflexivity|].
  now destruct (String.eqb (name e) n).
Qed.

(** The two outcomes of recording a connection: under a name that
    [relationTypes] holds or that is found nowhere, the connection is
    recorded; under a name that only [Object.prototype] answers to, the
    call of [.find] throws. *)
Lemma recordConnection_plain (m : JsObject.t (list Connection)) (rt : string)
  (ft tt : option string) :
  JsObject.get m rt <> None \/ JsObject.Object_prototype rt = None ->
  recordConnection m rt ft tt = Returns (recordPlain m rt ft tt).
Proof.
  unfold recordConnection, recordPlain, JsObject.read.
  destruct (JsObject.get m rt) as [l|] eqn:G.
  - intros _. rewrite G. now destruct (find _ l).
  - intros [H|H]; [congruence|]. rewrite H, get_set_same. reflexivity.
Qed.

Lemma recordConnection_inherited (m : JsObject.t (list Connection))
  (rt : string) (ft tt : option string) :
  JsObject.get m rt = None -> JsObject.Object_prototype rt <> None ->
  recordConnection m rt ft tt
  = Throws (TypeError "relationTypes[relation.relationType].find is not a function").
Proof.
  unfold recordConnection, JsObject.read. intros G H. rewrite G.
  destruct (JsObject.Object_prototype rt); [|congruence].
  now rewrite G.
Qed.

Lemma processRelation_skipped (es : list Entity)
  (acc : JsObject.t (list Connection)) (r : Relation) :
  skipped es r = true -> processRelation (Some es) acc r = Returns acc.
Proof.
  unfold skipped, processRelation, endpointsOf, truthy.
  rewrite !findEntity_resolve.
  destruct (relationType r) as [[|ch rt]|]; simpl; try reflexivity.
  destruct (resolve es (from r)), (resolve es (to r));
    simpl; intros; (reflexivity || discriminate).
Qed.

Lemma processRelation_kept (es : list Entity)
  (acc : JsObject.t (list Connection)) (r : Relation) :
  skipped es r = false ->
  exists rt0 ft0 tt0,
    relationType r = Some rt0 /\ endpointsOf es r = Some (ft0, tt0) /\
    processRelation (Some es) acc r = recordConnection acc rt0 ft0 tt0.
Proof.
  unfold skipped, processRelation, endpointsOf, truthy.
  rewrite !findEntity_resolve.
  destruct (relationType r) as [[|ch rt]|]; simpl; try discriminate.
  destruct (resolve es (from r)) as [f|], (resolve es (to r)) as [t|];
    simpl; try discriminate.
  intros _. exists (String ch rt), (entityType f), (entityType t). auto.
Qed.

Lemma processRelation_plain (es : list Entity)
  (acc : JsObject.t (list Connection)) (r : Relation) :
  skipped es r = false -> plainName (relationType r) = true ->
  exists rt0 ft0 tt0,
    relationType r = Some rt0 /\ endpointsOf es r = Some (ft0, tt0) /\
    processRelation (Some es) acc r = Returns (recordPlain acc rt0 ft0 tt0).
Proof.
  intros Hs Hp.
  destruct (processRelation_kept es acc r Hs) as (rt0 & ft0 & tt0 & Hr & He & E).
  exists rt0, ft0, tt0. split; [exact Hr|]. split; [exact He|].
  rewrite E. apply recordConnection_plain. right.
  rewrite Hr in Hp. simpl in Hp.
  now destruct (JsObject.Object_prototype rt0).
Qed.

Lemma tally_forEach (es : list Entity) (rs : list Relation)
  (acc : JsObject.t (list Connection)) :
  (forall r, In r rs -> skipped es r = false ->
             plainName (relationType r) = true) ->
  exists m,
    forEachM (processRelation (Some es)) rs acc = Returns m /\
    forall rt ft tt,
      tally m rt ft tt
      = Nat.iter (occurrences es rs rt ft tt) bump (tally acc rt ft tt).
Proof.
  revert acc. induction rs as [|r rs IH]; intros acc Hp; simpl.
  - exists acc. split; reflexivity.
  - assert (Hp' : forall r', In r' rs -> skipped es r' = false ->
                             plainName (relationType r') = true)
      by (intros r' H; apply Hp; now right).
    destruct (skipped es r) eqn:Hs.
    + rewrite (processRelation_skipped _ _ _ Hs). simpl.
      destruct (IH acc Hp') as (m & -> & Hm). exists m. split; [reflexivity|].
      intros rt ft tt. rewrite Hm. unfold occurrences, contributes. simpl.
      now rewrite Hs.
    + destruct (processRelation_plain es acc r Hs (Hp r (or_introl eq_refl) Hs))
        as (rt0 & ft0 & tt0 & Hr & He & ->).
      simpl.
      destruct (IH (recordPlain acc rt0 ft0 tt0) Hp') as (m & -> & Hm).
      exists m. split; [reflexivity|].
      intros rt ft tt. rewrite Hm, tally_recordConnection.
      unfold occurrences, contributes. simpl. rewrite Hs, Hr, He. simpl.
      change (sameType ft0 ft) with (option_string_eqb ft0 ft).
      change (sameType tt0 tt) with (option_string_eqb tt0 tt).
      destruct (String.eqb rt0 rt && option_string_eqb ft0 ft
                && option_string_eqb tt0 tt) eqn:E.
      * rewrite <- andb_assoc in E. rewrite E. simpl.
        apply iter_bump_swap.
      * rewrite <- andb_assoc in E. now rewrite E.
Qed.

Lemma ownPlain_recordPlain (m : JsObject.t (list Connection)) (rt : string)
  (ft tt : option string) :
  ownPlain m -> JsObject.Object_prototype rt = None ->
  ownPlain (recordPlain m rt ft tt).
Proof.
  intros Hm Hrt k Hk.
  destruct (String.eqb_spec rt k) as [<-|Hne]; [exact Hrt|].
  apply Hm. unfold recordPlain in Hk.
  destruct (JsObject.get m rt) as [l|] eqn:G.
  - rewrite G in Hk.
    destruct (find (sameConnection ft tt) l); now rewrite get_set_other in Hk.
  - rewrite get_set_same in Hk. cbn [find] in Hk.
    now rewrite !get_set_other in Hk.
Qed.

(** The relation loop is left by a [TypeError] at the first relation that
    is kept and whose type only [Object.prototype] answers to. *)
Lemma forEach_inherited (es : list Entity) (rs : list Relation)
  (acc : JsObject.t (list Connection)) :
  ownPlain acc ->
  (exists r, In r rs /\ skipped es r = false /\
             plainName (relationType r) = false) ->
  forEachM (processRelation (Some es)) rs acc
  = Throws (TypeError "relationTypes[relation.relationType].find is not a function").
Proof.
  revert acc. induction rs as [|r rs IH]; intros acc Hacc (x & Hx & Hs & Hp);
    [destruct Hx|].
  cbn [forEachM]. destruct (skipped es r) eqn:Sr.
  - rewrite (processRelation_skipped _ _ _ Sr). cbn [bind].
    apply IH; [exact Hacc|]. exists x. split; [|auto].
    destruct Hx as [->|Hx]; [congruence | exact Hx].
  - destruct (plainName (relationType r)) eqn:Pr.
    + destruct (processRelation_plain es acc r Sr Pr)
        as (rt0 & ft0 & tt0 & Hr & _ & ->).
      cbn [bind]. apply IH.
      * apply ownPlain_recordPlain; [exact Hacc|].
        rewrite Hr in Pr. simpl in Pr.
        now destruct (JsObject.Object_prototype rt0).
      * exists x. split; [|auto].
        destruct Hx as [->|Hx]; [congruence | exact Hx].
    + destruct (processRelation_kept es acc r Sr)
        as (rt0 & ft0 & tt0 & Hr & _ & ->).
      rewrite Hr in Pr. simpl in Pr.
      assert (I : JsObject.Object_prototype rt0 <> None)
        by (destruct (JsObject.Object_prototype rt0); congruence).
      rewrite recordConnection_inherited; [reflexivity | | exact I].
      destruct (JsObject.get acc rt0) eqn:G; [|reflexivity].
      exfalso. apply I. apply Hacc. congruence.
Qed.

(** C1.  The relation loop of [extractOntology] does what the claim says
    as long as the relation types it keeps are names that
    [Object.prototype] does not answer to: relations without relation
    type or with an end that does not resolve are skipped, and for every
    relation type and pair of entity types [relationTypes] holds no entry
    when no kept relation has them, and otherwise exactly one entry, whose
    count is the number of kept relations that have them.  At a kept
    relation whose type is such a name ([constructor], [toString], ...)
    the loop is left by a [TypeError] instead: the inherited member stands
    in for the array that the code means to have initialised.
    [constructorGraph] is such a graph. *)
Theorem extractOntology_relationTypes (es : list Entity) (rs : list Relation) :
  extractOntology constructorGraph
  = Throws (TypeError "relationTypes[relation.relationType].find is not a function") /\
  ((exists r, In r rs /\ skipped es r = false /\
              plainName (relationType r) = false) ->
   extractOntology {| entities := Some es; relations := Some rs |}
   = Throws (TypeError "relationTypes[relation.relationType].find is not a function")) /\
  ((forall r, In r rs -> skipped es r = false ->
              plainName (relationType r) = true) ->
   exists o,
     extractOntology {| entities := Some es; relations := Some rs |} = Returns o /\
     forall rt ft tt,
       filter (hasEnds ft tt) (connectionsOf (relationTypes o) rt)
       = match occurrences es rs rt ft tt with
         | 0 => []
         | n => [{| conn_from := ft; conn_to := tt; count := n |}]
         end).
Proof.
  split; [reflexivity|]. split.
  - intro H. unfold extractOntology. cbn [entities relations].
    rewrite (forEach_inherited es rs JsObject.empty); [reflexivity | | exact H].
    intros k Hk. now destruct Hk.
  - intro Hp.
    destruct (tally_forEach es rs JsObject.empty Hp) as (m & Hm & Ht).
    unfold extractOntology. cbn [entities relations]. rewrite Hm. cbn [bind].
    eexists. split; [reflexivity|].
    intros rt ft tt. simpl relationTypes.
    change (hasEnds ft tt) with (sameConnection ft tt).
    rewrite filter_sameConnection.
    fold (tally m rt ft tt). rewrite Ht.
    change (tally JsObject.empty rt ft tt) with (@nil nat).
    rewrite iter_bump. now destruct (occurrences es rs rt ft tt).
Qed.

(** The graph of the test keeps only names of its own. *)
Lemma extractOntology_relationTypes_witness :
  exists o,
    extractOntology teamGraph = Returns o /\
    forall rt ft tt,
      filter (hasEnds ft tt) (connectionsOf (relationTypes o) rt)
      = match occurrences teamEntities teamRelations rt ft tt with
        | 0 => []
        | n => [{| conn_from := ft; conn_to := tt; count := n |}]
        end.
Proof.
  apply (extractOntology_relationTypes teamEntities teamRelations).
  intros r [<-|[<-|[<-|[]]]] _; reflexivity.
Defined.

(** A relation without type, one with a dangling end and a kept one. *)
Example processRelation_examples (acc : JsObject.t (list Connection)) :
  processRelation (Some teamEntities) acc
    {| from := "Person1"; to := "Team1"; relationType := None |}
  = Returns acc /\
  processRelation (Some teamEntities) acc
    {| from := "Person1"; to := "Team1"; relationType := Some "" |}
  = Returns acc /\
  processRelation (Some teamEntities) acc
    {| from := "Person1"; to := "Nobody"; relationType := Some "knows" |}
  = Returns acc /\
  processRelation (Some teamEntities) acc
    {| from := "Person1"; to := "Team1"; relationType := Some "knows" |}
  = recordConnection acc "knows" (Some "Person") (Some "Team").
Proof. repeat split. Qed.

Example extractOntology_teamGraph :
  extractOntology teamGraph = Returns teamOntology.
Proof. reflexivity. Qed.

(** Entity types that are names of members of [Object.prototype]: the
    text of the inherited function with a 1 appended, another 1 at the
    next record, and nothing at all for [__proto__]. *)
Example countEntity_inherited_names (n : string) :
  countEntity JsObject.empty {| name := n; entityType := Some "constructor" |}
  = [("constructor", Text "function Object() { [native code] }1")] /\
  countEntity [("constructor", Text "function Object() { [native code] }1")]
    {| name := n; entityType := Some "constructor" |}
  = [("constructor", Text "function Object() { [native code] }11")] /\
  countEntity JsObject.empty {| name := n; entityType := Some "toString" |}
  = [("toString", Text "function toString() { [native code] }1")] /\
  countEntity JsObject.empty {| name := n; entityType := Some "__proto__" |}
  = JsObject.empty.
Proof. repeat split. Qed.

(** Relation types of that kind: the inherited member is taken for the
    array, and calling its [find] throws. *)
Example recordConnection_inherited_names (ft tt : option string) :
  recordConnection JsObject.empty "constructor" ft tt
  = Throws (TypeError "relationTypes[relation.relationType].find is not a function") /\
  recordConnection JsObject.empty "__proto__" ft tt
  = Throws (TypeError "relationTypes[relation.relationType].find is not a function") /\
  recordConnection JsObject.empty "knows" ft tt
  = Returns [("knows", [{| conn_from := ft; conn_to := tt; count := 1 |}])].
Proof. repeat split. Qed.

(** ** extractOntology: the entity types, and records without a type *)

Section CountsOfObjects.

Context {V W : Type}.
Variable f : V -> W.

Local Abbreviation lifted := (map (fun kv : string * V => (fst kv, f (snd kv)))).

Lemma get_lifted (o : JsObject.t V) (k : string) :
  JsObject.get (lifted o) k = option_map f (JsObject.get o k).
Proof.
  induction o as [|[k' v'] o IH]; simpl; [reflexivity|].
  now destruct (String.eqb k' k).
Qed.

Lemma update_lifted (o : JsObject.t V) (k : string) (v : V) :
  JsObject.update (lifted o) k (f v) = lifted (JsObject.update o k v).
Proof.
  induction o as [|[k' v'] o IH]; simpl; [reflexivity|].
  destruct (String.eqb k' k); simpl; [reflexivity | now rewrite IH].
Qed.

Lemma insert_new_lifted (o : JsObject.t V) (k : string) (v : V) :
  JsObject.insert_new (lifted o) k (f v) = lifted (JsObject.insert_new o k v).
Proof.
  induction o as [|[k' v'] o IH]; simpl; [reflexivity|].
  destruct (JsObject.precedes k k'); simpl; [reflexivity | now rewrite IH].
Qed.

Lemma set_lifted (o : JsObject.t V) (k : string) (v : V) :
  JsObject.set (lifted o) k (f v) = lifted (JsObject.set o k v).
Proof.
  unfold JsObject.set. rewrite get_lifted.
  destruct (JsObject.get o k); simpl;
    [apply update_lifted | apply insert_new_lifted].
Qed.

End CountsOfObjects.

(** On a name of its own the body of the entity loop keeps a map of
    numbers and adds one under the type. *)
Lemma countEntity_plain (acc : JsObject.t nat) (e : Entity) :
  plainName (entityType e) = true ->
  countEntity (counts acc) e = counts (countPlain acc e).
Proof.
  unfold countEntity, countPlain, plainName, counts.
  destruct (entityType e) as [[|ch ty]|]; try reflexivity.
  intro P. unfold JsObject.assign, JsObject.read. rewrite get_lifted.
  destruct (JsObject.get acc (String ch ty)) as [n|]; simpl.
  - apply (set_lifted Count).
  - destruct (JsObject.Object_prototype (String ch ty)); [discriminate|].
    apply (set_lifted Count).
Qed.

Lemma fold_countEntity_plain (es : list Entity) (acc : JsObject.t nat) :
  (forall e, In e es -> plainName (entityType e) = true) ->
  fold_left countEntity es (counts acc) = counts (fold_left countPlain es acc).
Proof.
  revert acc. induction es as [|e es IH]; intros acc P; [reflexivity|].
  cbn [fold_left]. rewrite countEntity_plain by (apply P; now left).
  apply IH. intros x Hx. apply P. now right.
Qed.







Lemma recordConnection_returns (m x : JsObject.t (list Connection))
  (rt : string) (ft tt : option string) :
  recordConnection m rt ft tt = Returns x -> x = recordPlain m rt ft tt.
Proof.
  destruct (JsObject.get m rt) as [l|] eqn:G.
  - rewrite recordConnection_plain by (left; congruence). now intros [= <-].
  - destruct (JsObject.Object_prototype rt) as [member|] eqn:P.
    + rewrite recordConnection_inherited by congruence. discriminate.
    + rewrite recordConnection_plain by (now right). now intros [= <-].
Qed.






Lemma teamGraph_plain : plainGraph teamEntities teamRelations.
Proof.
  split.
  - intros e [<-|[<-|[<-|[<-|[]]]]]; reflexivity.
  - intros r [<-|[<-|[<-|[]]]]; reflexivity.
Qed.


(** ** The inline case of handleToolCall *)

Import ToolCall.

Lemma caseEntityTypes_fold (es : list Entity) (acc : JsObject.t Tally) :
  fold_left countEntity es acc
  = fold_left
      (fun entityTypes entity =>
         if truthy (entityType entity)
         then
           let ty := ToString (entityType entity) in
           JsObject.assign entityTypes ty
             (JsObject.orZero_plusOne (JsObject.read entityTypes ty))
         else entityTypes)
      es acc.
Proof.
  revert acc. induction es as [|e es IH]; intro acc; simpl; [reflexivity|].
  rewrite IH. f_equal.
  unfold countEntity, truthy. now destruct (entityType e) as [[|ch ty]|].
Qed.

Lemma caseRelationTypes_forEach (es : list Entity) (rs : list Relation) :
  forEachM (processRelation (Some es)) rs JsObject.empty
  = caseRelationTypes es rs.
Proof.
  unfold caseRelationTypes. generalize (@JsObject.empty (list Connection)).
  induction rs as [|r rs IH]; intro acc; [reflexivity|].
  cbn [forEachM].
  match goal with
  | |- bind ?step _ = bind ?step' _ => assert (E : step = step')
  end.
  { unfold processRelation, truthy, findEntity.
    destruct (relationType r) as [[|ch rt]|]; reflexivity. }
  rewrite E.
  match goal with
  | |- bind ?step _ = _ => destruct step as [acc'|err]
  end; cbn [bind]; [apply IH | reflexivity].
Qed.

Lemma caseOutput_formatOntology (localeCompare : string -> string -> Z)
  (et : JsObject.t Tally) (rt : JsObject.t (list Connection)) :
  et <> [] \/ rt <> [] ->
  caseOutput localeCompare et rt
  = formatOntology localeCompare {| entityTypes := et; relationTypes := rt |}.
Proof.
  destruct et as [|e0 et], rt as [|r0 rt]; intro H; try reflexivity.
  now destruct H.
Qed.

(** C9.  On a graph with both arrays the inline case computes the maps of
    [extractOntology], or is left by the same exception; its answer
    carries the text of [formatOntology], or its [try] block is left by
    the exception that [extractOntology] or [formatOntology] throws; and
    the raw maps of the answer, when present, are the maps of
    [extractOntology]. *)
Theorem handleToolCall_get_ontology_agrees
  (localeCompare : string -> string -> Z) (es : list Entity) (rs : list Relation) :
  extractOntology {| entities := Some es; relations := Some rs |}
  = (relationTypes <- caseRelationTypes es rs ;;
     Returns {| entityTypes := caseEntityTypes es;
                relationTypes := relationTypes |}) /\
  (response <- handleToolCall_get_ontology localeCompare
                 {| entities := Some es; relations := Some rs |} ;;
   Returns (ontology response))
  = handleGetOntology localeCompare
      {| entities := Some es; relations := Some rs |} /\
  (forall response,
      handleToolCall_get_ontology localeCompare
        {| entities := Some es; relations := Some rs |} = Returns response ->
      exists o,
        extractOntology {| entities := Some es; relations := Some rs |}
        = Returns o /\
        (_entityTypes response = None
         \/ _entityTypes response = Some (entityTypes o)) /\
        (_relationTypes response = None
         \/ _relationTypes response = Some (relationTypes o))).
Proof.
  assert (E : extractOntology {| entities := Some es; relations := Some rs |}
              = (relationTypes <- caseRelationTypes es rs ;;
                 Returns {| entityTypes := caseEntityTypes es;
                            relationTypes := relationTypes |})).
  { unfold extractOntology. cbn [entities relations].
    rewrite caseRelationTypes_forEach.
    unfold caseEntityTypes. now rewrite caseEntityTypes_fold. }
  split; [exact E|]. split.
  - unfold handleGetOntology. rewrite E.
    unfold handleToolCall_get_ontology. cbn [entities relations bind].
    destruct (caseRelationTypes es rs) as [rt|err]; cbn [bind]; [|reflexivity].
    pose proof (caseOutput_formatOntology localeCompare
                  (caseEntityTypes es) rt) as F.
    unfold JsObject.entries.
    destruct (caseEntityTypes es) as [|e0 eo];
      destruct rt as [|r0 ro];
      try reflexivity;
      (rewrite <- F by (first [left; discriminate | right; discriminate]));
      now destruct (caseOutput _ _ _).
  - intros response. rewrite E.
    unfold handleToolCall_get_ontology. cbn [entities relations bind].
    destruct (caseRelationTypes es rs) as [rt|err]; cbn [bind]; [|discriminate].
    intro H. eexists. split; [reflexivity|]. cbn [entityTypes relationTypes].
    revert H. unfold JsObject.entries.
    destruct (caseEntityTypes es) as [|e0 eo];
      destruct rt as [|r0 ro];
      try (intros [= <-]; simpl; now auto);
      (destruct (caseOutput _ _ _); cbn [bind]; [|discriminate];
       intros [= <-]; simpl; auto).
Qed.

(** ** convertNeo4jIntegers *)

(** Induction over a value and the values inside it. *)
Lemma value_induction (P : value -> Prop) :
  P VUndefined -> P VNull -> (forall b, P (VBoolean b)) ->
  (forall n, P (VNumber n)) -> (forall s, P (VString s)) ->
  (forall low high, P (VInteger low high)) ->
  (forall l, Forall P l -> P (VArray l)) ->
  (forall o, Forall (fun kv => P (snd kv)) o -> P (VObject o)) ->
  forall v, P v.
Proof.
  intros Hu Hn Hb Hz Hs Hi Ha Ho. fix IH 1.
  intros [ | | b | n | s | low high | l | o].
  - exact Hu.
  - exact Hn.
  - apply Hb.
  - apply Hz.
  - apply Hs.
  - apply Hi.
  - apply Ha. induction l as [|x l IHl]; constructor; [apply IH | exact IHl].
  - apply Ho. induction o as [|kv o IHo]; constructor; [apply IH | exact IHo].
Qed.

Section OrderedObjects.

Context {V : Type}.
Implicit Types (o acc : JsObject.t V) (k : string) (v : V).

Lemma well_ordered_app acc o :
  well_ordered (acc ++ o)%list = true ->
  forall x y, In x acc -> In y o ->
    fst x <> fst y /\ JsObject.precedes (fst y) (fst x) = false.
Proof.
  induction acc as [|a acc IH]; simpl; intros H x y Hx Hy; [destruct Hx|].
  apply andb_true_iff in H as [Ha Hacc].
  destruct Hx as [<-|Hx]; [|now apply IH].
  rewrite forallb_forall in Ha.
  specialize (Ha y (in_or_app _ _ _ (or_intror Hy))).
  apply andb_true_iff in Ha as [H1 H2].
  apply negb_true_iff in H1, H2. split; [|exact H2].
  now apply String.eqb_neq.
Qed.

Lemma get_absent o k :
  (forall x, In x o -> fst x <> k) -> JsObject.get o k = None.
Proof.
  induction o as [|[k' v'] o IH]; simpl; intro H; [reflexivity|].
  destruct (String.eqb_spec k' k) as [->|_].
  - now destruct (H (k, v') (or_introl eq_refl)).
  - apply IH. intros x Hx. apply H. now right.
Qed.

Lemma insert_new_last o k v :
  (forall x, In x o -> JsObject.precedes k (fst x) = false) ->
  JsObject.insert_new o k v = (o ++ [(k, v)])%list.
Proof.
  induction o as [|[k' v'] o IH]; simpl; intro H; [reflexivity|].
  pose proof (H (k', v') (or_introl eq_refl)) as Hk. simpl in Hk. rewrite Hk.
  f_equal. apply IH. intros x Hx. apply H. now right.
Qed.

(** Rebuilding an object from its own entries gives the object back. *)
Lemma fold_set_well_ordered o acc :
  well_ordered (acc ++ o)%list = true ->
  fold_left (fun o' kv => JsObject.set o' (fst kv) (snd kv)) o acc
  = (acc ++ o)%list.
Proof.
  revert acc. induction o as [|[k v] o IH]; intros acc H; simpl.
  - now rewrite app_nil_r.
  - assert (S1 : JsObject.set acc k v = (acc ++ [(k, v)])%list).
    { unfold JsObject.set.
      rewrite get_absent.
      - apply insert_new_last. intros x Hx.
        now apply (well_ordered_app _ _ H x (k, v) Hx (or_introl eq_refl)).
      - intros x Hx.
        now apply (well_ordered_app _ _ H x (k, v) Hx (or_introl eq_refl)). }
    rewrite S1, IH; rewrite <- app_assoc; [reflexivity | exact H].
Qed.

Lemma fromEntries_well_ordered o :
  well_ordered o = true -> JsObject.fromEntries o = o.
Proof.
  intro H. unfold JsObject.fromEntries, JsObject.empty.
  now rewrite fold_set_well_ordered.
Qed.

End OrderedObjects.

Lemma well_ordered_map_values {V W : Type} (f : V -> W) (o : JsObject.t V) :
  well_ordered (map (fun kv => (fst kv, f (snd kv))) o) = well_ordered o.
Proof.
  induction o as [|kv o IH]; simpl; [reflexivity|].
  rewrite IH. f_equal.
  clear IH. induction o as [|kv' o IH]; simpl; [reflexivity | now rewrite IH].
Qed.

(** On a well-formed object the conversion maps the values in place. *)
Lemma convert_object (o : list (string * value)) :
  well_ordered o = true ->
  convertNeo4jIntegers (VObject o)
  = VObject (map (fun kv => (fst kv, convertNeo4jIntegers (snd kv))) o).
Proof.
  intro H. simpl. unfold JsObject.entries.
  now rewrite fromEntries_well_ordered by now rewrite well_ordered_map_values.
Qed.




Example convert_driverRecord :
  convertNeo4jIntegers driverRecord
  = VObject [ ("0", VNumber 7);
              ("name", VString "Team1");
              ("version", VNumber 4294967295);
              ("tags", VArray [VString "a"; VNumber 4294967299; VNull]);
              ("meta", VObject [("count", VNumber 2); ("ok", VBoolean true)]) ].
Proof. reflexivity. Qed.


(** ** sanitizeLabel *)

Import Labels.

Lemma replaceInvalid_word (s : jsstring) :
  forallb isWordChar (replaceInvalid s) = true.
Proof.
  induction s as [|c s IH]; simpl; [reflexivity|].
  rewrite IH, andb_true_r.
  destruct (isWordChar c) eqn:E; [exact E | reflexivity].
Qed.

Lemma isLetter_word (c : N) : isLetter c = true -> isWordChar c = true.
Proof. unfold isWordChar. now intros ->. Qed.

Lemma underscore_not_letter : isLetter 95 = false.
Proof. reflexivity. Qed.

(** The first character after the replacement is a letter exactly when it
    was one before. *)
Lemma startsWithLetter_replaceInvalid (s : jsstring) :
  startsWithLetter (replaceInvalid s) = startsWithLetter s.
Proof.
  destruct s as [|c s]; simpl; [reflexivity|].
  destruct (isWordChar c) eqn:E; [reflexivity|].
  rewrite underscore_not_letter.
  destruct (isLetter c) eqn:L; [|reflexivity].
  apply isLetter_word in L. congruence.
Qed.

(** C8.  Whatever the argument, the label starts with a letter and goes on
    with letters, digits and underscores.  A string that starts with a
    letter keeps its characters, the invalid ones replaced; any other
    non-empty string gets the prefix [T_] before them; the empty string
    and [undefined] give [Unknown]. *)
Theorem sanitizeLabel_contract (entityType : option jsstring) :
  validLabel (sanitizeLabel entityType) = true /\
  sanitizeLabel entityType
  = match entityType with
    | None | Some [] => lit "Unknown"
    | Some s =>
        if startsWithLetter s then replaceInvalid s
        else (lit "T_" ++ replaceInvalid s)%list
    end.
Proof.
  split.
  - destruct entityType as [[|c s]|]; try reflexivity.
    unfold sanitizeLabel.
    destruct (startsWithLetter (replaceInvalid (c :: s))) eqn:L; cbn [negb].
    + pose proof (replaceInvalid_word (c :: s)) as W.
      destruct (replaceInvalid (c :: s)) as [|c' s']; [discriminate|].
      simpl in *. apply andb_true_iff in W as [_ W]. now rewrite L, W.
    + change (validLabel (lit "T_" ++ replaceInvalid (c :: s))%list)
        with (forallb isWordChar (replaceInvalid (c :: s))).
      apply replaceInvalid_word.
  - destruct entityType as [[|c s]|]; try reflexivity.
    unfold sanitizeLabel. rewrite startsWithLetter_replaceInvalid.
    now destruct (startsWithLetter (c :: s)).
Qed.

Example sanitizeLabel_examples :
  sanitizeLabel (Some (lit "Person")) = lit "Person" /\
  sanitizeLabel (Some (lit "2nd-level team")) = lit "T_2nd_level_team" /\
  sanitizeLabel (Some (lit "_draft")) = lit "T__draft" /\
  sanitizeLabel (Some [233; 116; 233]%N) = lit "T__t_" /\
  sanitizeLabel (Some []) = lit "Unknown" /\
  sanitizeLabel None = lit "Unknown".
Proof. repeat split. Qed.

(** ** The embedding backfill *)

Section BackfillFacts.

Variable Vector : Type.
Variable Store : Type.
Variable JSON_parse : string -> result value.
Variable generateEmbedding : string -> result Vector.
Variable modelName : string.
Variable Date_now : Z.
Variable updateEntityEmbedding :
  option (Store -> string -> Backfill.EntityEmbedding Vector -> result Store).

Local Abbreviation entityText := (Backfill.entityText Vector JSON_parse).
Local Abbreviation observationsArray := (Backfill.observationsArray Vector JSON_parse).
Local Abbreviation processEntity :=
  (Backfill.processEntity Vector Store JSON_parse generateEmbedding modelName
     Date_now updateEntityEmbedding).
Local Abbreviation forOf :=
  (Backfill.forOf Vector Store JSON_parse generateEmbedding modelName
     Date_now updateEntityEmbedding).
Local Abbreviation main :=
  (Backfill.main Vector Store JSON_parse generateEmbedding modelName
     Date_now updateEntityEmbedding).
Local Abbreviation embeddingFails :=
  (embeddingFails Vector Store JSON_parse generateEmbedding modelName
     Date_now updateEntityEmbedding).
Local Abbreviation withMetadata := (withMetadata Vector).

(** The three shapes of [observations] end as one array. *)
Lemma observationsArray_shapes (e : Backfill.Entity Vector) :
  (forall l, Backfill.observations e = VArray l -> observationsArray e = l) /\
  (forall s l, Backfill.observations e = VString s ->
     JSON_parse s = Returns (VArray l) -> observationsArray e = l) /\
  (forall s err, Backfill.observations e = VString s ->
     JSON_parse s = Throws err -> observationsArray e = [VString s]).
Proof.
  unfold Backfill.observationsArray. repeat split.
  - now intros l ->.
  - now intros s l -> ->.
  - now intros s err -> ->.
Qed.

(** Without observations the text carries the marker. *)
Lemma entityText_no_observations (e : Backfill.Entity Vector) :
  observationsArray e = [] ->
  entityText e
  = "Name: " ++ Backfill.name e ++ LF ++
    "Type: " ++ ToString (Backfill.entityType e) ++ LF ++
    "Observations:" ++ LF ++ "  (No observations)".
Proof.
  intro H. unfold Backfill.entityText. rewrite H.
  cbn [String.concat push List.app]. now rewrite !append_assoc.
Qed.

(** The text does not depend on the metadata of the entity. *)
Lemma entityText_withMetadata (e : Backfill.Entity Vector) (m : option value) :
  entityText (withMetadata e m) = entityText e.
Proof. reflexivity. Qed.

Lemma forOf_app (l1 l2 : list (Backfill.Entity Vector))
  (st st1 : Backfill.State Store) :
  forOf l1 st = (st1, Backfill.Running) ->
  forOf (l1 ++ l2)%list st = forOf l2 st1.
Proof.
  revert st. induction l1 as [|e l1 IH]; simpl; intros st H.
  - now injection H as <-.
  - destruct (processEntity st e) as [st' [|err|code]]; try discriminate.
    now apply IH.
Qed.

(** C7, amended.  When the embedding of one entity cannot be generated or
    stored, the job ends there: the entities before it have been
    processed, the entity itself and those after it are not, the error is
    logged and the process exits with status 1. *)
Theorem main_stops_at_first_failure
  (before after : list (Backfill.Entity Vector)) (e : Backfill.Entity Vector)
  (st st1 : Backfill.State Store) (err : JsError) :
  forOf before st = (st1, Backfill.Running) ->
  embeddingFails e st1 err ->
  forOf (before ++ e :: after)%list st = (st1, Backfill.Thrown err) /\
  main (before ++ e :: after)%list st
  = ({| Backfill.store := Backfill.store st1;
        Backfill.updated := Backfill.updated st1;
        Backfill.log := push (Backfill.log st1) "Error updating embeddings:" |},
     1).
Proof.
  intros Hb [He Hf].
  assert (P : processEntity st1 e = (st1, Backfill.Thrown err)).
  { unfold Backfill.processEntity. rewrite He.
    destruct Hf as [->|(v & update & -> & -> & ->)]; reflexivity. }
  assert (F : forOf (before ++ e :: after)%list st = (st1, Backfill.Thrown err)).
  { rewrite (forOf_app _ _ _ _ Hb). simpl. now rewrite P. }
  split; [exact F|]. unfold Backfill.main. now rewrite F.
Qed.

End BackfillFacts.

Lemma substring_middle (b p a : string) :
  substring (String.length b) (String.length p) (b ++ p ++ a) = p.
Proof.
  induction b as [|c b IH]; simpl; [|exact IH].
  induction p as [|c p IH]; simpl.
  - now destruct a.
  - now rewrite IH.
Qed.

(** A text in which [String.index] finds no occurrence includes none. *)
Lemma index_none_not_includes (s part : string) :
  part <> "" -> String.index 0 part s = None -> ~ includes s part.
Proof.
  intros Hne Hi (b & a & ->).
  apply (String.index_correct3 0 (String.length b) part _ Hi Hne (Nat.le_0_l _)).
  apply substring_middle.
Qed.

(** C6, where the code departs from the claim.  The text the backfill
    sends to the embedding service is the same whatever the metadata of
    the entity.  For [projectAlpha], whose metadata is
    [{status: "active"}], the text is the three header lines and the
    marker for no observations, and contains neither the key nor the
    value of the metadata. *)
Theorem entityText_ignores_metadata (JSON_parse : string -> result value) :
  (forall (e : Backfill.Entity nat) (m : option value),
      Backfill.entityText nat JSON_parse (withMetadata nat e m)
      = Backfill.entityText nat JSON_parse e) /\
  Backfill.metadata projectAlpha
  = Some (VObject [("status", VString "active")]) /\
  Backfill.entityText nat JSON_parse projectAlpha
  = "Name: Project Alpha" ++ LF ++ "Type: Project" ++ LF ++
    "Observations:" ++ LF ++ "  (No observations)" /\
  ~ includes (Backfill.entityText nat JSON_parse projectAlpha) "status" /\
  ~ includes (Backfill.entityText nat JSON_parse projectAlpha) "active".
Proof.
  split; [intros e m; apply entityText_withMetadata|].
  split; [reflexivity|]. split; [reflexivity|].
  split; apply index_none_not_includes;
    solve [discriminate | vm_compute; reflexivity].
Qed.

(** C7, the claim as stated fails.  [entityB] needs an embedding and its
    own call to the service succeeds, yet after the failure on [entityA]
    it is never processed: nothing is stored and the job exits with
    status 1.  Alone, [entityB] is stored. *)
Lemma failure_aborts_the_batch :
  Backfill.embedding entityB = None /\
  failingService (Backfill.entityText nat noJson entityB) = Returns 41 /\
  Backfill.store (fst (runBackfill [entityA; entityB])) = [] /\
  snd (runBackfill [entityA; entityB]) = 1 /\
  Backfill.store (fst (runBackfill [entityB])) = ["B"].
Proof. repeat split. Qed.

Lemma main_stops_at_first_failure_witness :
  Backfill.forOf nat (list string) noJson failingService "test-model" 0
    nameStore [entityB] emptyState
  = ({| Backfill.store := ["B"]; Backfill.updated := 1;
        Backfill.log := ["Updated embedding for entity: B"] |},
     Backfill.Running) /\
  Backfill.main nat (list string) noJson failingService "test-model" 0
    nameStore ([entityB] ++ entityA :: [entityB])%list emptyState
  = ({| Backfill.store := ["B"]; Backfill.updated := 1;
        Backfill.log := ["Updated embedding for entity: B";
                         "Error updating embeddings:"] |},
     1).
Proof.
  split; [reflexivity|].
  exact (proj2
           (main_stops_at_first_failure nat (list string) noJson failingService
              "test-model" 0%Z nameStore [entityB] [entityB] entityA
              emptyState
              {| Backfill.store := ["B"]; Backfill.updated := 1;
                 Backfill.log := ["Updated embedding for entity: B"] |}
              (Error "rate limited") eq_refl
              (conj eq_refl (or_introl eq_refl)))).
Defined.

(** ** The decay law *)

Section DecayFacts.

Local Open Scope R_scope.

Import Decay.







End DecayFacts.

(* ================================================================== *)
(** * Further properties of the code *)
(* ================================================================== *)

(** ** convertNeo4jIntegers and handleReadGraph *)

Lemma values_fold_set {V : Type} (l : list (string * V)) (acc : JsObject.t V)
  (x : V) :
  In x (JsObject.values
          (fold_left (fun o kv => JsObject.set o (fst kv) (snd kv)) l acc)) ->
  In x (JsObject.values acc) \/ In x (map snd l).
Proof.
  revert acc. induction l as [|kv l IH]; simpl; intros acc H; [now left|].
  destruct (IH _ H) as [H'|H']; [|now right; right].
  apply values_set in H' as [->|H']; [right; now left | now left].
Qed.

(** X1.  Whatever the value, also one whose objects repeat a key, no
    driver integer is left anywhere in the result of
    [convertNeo4jIntegers]. *)
Theorem convertNeo4jIntegers_integerFree (v : value) :
  integerFree (convertNeo4jIntegers v) = true.
Proof.
  induction v as [| | b | n | s | low high | l IH | o IH] using value_induction;
    try reflexivity.
  - simpl. apply forallb_forall. intros y Hy.
    apply in_map_iff in Hy as (x & <- & Hx).
    rewrite Forall_forall in IH. now apply IH.
  - simpl. apply forallb_forall. intros kv Hkv.
    assert (Hv : In (snd kv)
                   (JsObject.values
                      (JsObject.fromEntries
                         (map (fun kv => (fst kv, convertNeo4jIntegers (snd kv)))
                              (JsObject.entries o)))))
      by (unfold JsObject.values; now apply in_map).
    unfold JsObject.fromEntries in Hv.
    apply values_fold_set in Hv as [[]|Hv].
    rewrite map_map in Hv. simpl in Hv.
    apply in_map_iff in Hv as (x & <- & Hx).
    rewrite Forall_forall in IH. now apply IH.
Qed.

(** X2.  A well-formed value without driver integers is returned as it
    is, so [handleReadGraph] serialises exactly what [readGraph] resolved
    to. *)
Theorem convertNeo4jIntegers_identity (JSON_stringify : value -> string)
  (v : value) :
  well_formed v = true -> integerFree v = true ->
  convertNeo4jIntegers v = v /\
  ReadGraphHandler.handleReadGraph JSON_stringify v = JSON_stringify v.
Proof.
  intros W F.
  assert (E : convertNeo4jIntegers v = v).
  { revert W F.
    induction v as [| | b | n | s | low high | l IH | o IH] using value_induction;
      intros W F; try reflexivity; try discriminate.
    - simpl in *. f_equal. rewrite forallb_forall in W, F.
      rewrite Forall_forall in IH.
      rewrite <- (map_id l) at 2. apply map_ext_in.
      intros x Hx. now apply IH; [|apply W|apply F].
    - simpl in W, F. apply andb_true_iff in W as [Wo Wv].
      rewrite forallb_forall in Wv, F. rewrite Forall_forall in IH.
      rewrite (convert_object o Wo). f_equal.
      rewrite <- (map_id o) at 2. apply map_ext_in.
      intros [k x] Hx. simpl. f_equal.
      now apply (IH (k, x)); [|apply (Wv (k, x))|apply (F (k, x))]. }
  split; [exact E|]. unfold ReadGraphHandler.handleReadGraph. now rewrite E.
Qed.

Lemma convertNeo4jIntegers_identity_witness :
  convertNeo4jIntegers (convertNeo4jIntegers driverRecord)
  = convertNeo4jIntegers driverRecord /\
  ReadGraphHandler.handleReadGraph (fun _ => "{}")
    (convertNeo4jIntegers driverRecord) = "{}".
Proof.
  exact (convertNeo4jIntegers_identity (fun _ => "{}")
           (convertNeo4jIntegers driverRecord) eq_refl eq_refl).
Defined.

(** ** sanitizeLabel, again *)

Lemma replaceInvalid_valid (s : jsstring) :
  forallb isWordChar s = true -> replaceInvalid s = s.
Proof.
  induction s as [|c s IH]; simpl; intro H; [reflexivity|].
  apply andb_true_iff in H as [Hc Hs]. now rewrite Hc, IH.
Qed.

Lemma sanitizeLabel_valid (entityType : option jsstring) :
  validLabel (sanitizeLabel entityType) = true.
Proof.
  destruct entityType as [[|c s]|]; try reflexivity.
  unfold sanitizeLabel.
  destruct (startsWithLetter (replaceInvalid (c :: s))) eqn:L; cbn [negb].
  - pose proof (replaceInvalid_word (c :: s)) as W.
    destruct (replaceInvalid (c :: s)) as [|c' s']; [discriminate|].
    simpl in *. apply andb_true_iff in W as [_ W]. now rewrite L, W.
  - change (validLabel (lit "T_" ++ replaceInvalid (c :: s))%list)
      with (forallb isWordChar (replaceInvalid (c :: s))).
    apply replaceInvalid_word.
Qed.

Lemma validLabel_unchanged (l : jsstring) :
  validLabel l = true -> sanitizeLabel (Some l) = l.
Proof.
  destruct l as [|c l]; [discriminate|]. intro V.
  simpl in V. apply andb_true_iff in V as [Hc Hl].
  assert (W : forallb isWordChar (c :: l) = true)
    by (simpl; now rewrite (isLetter_word c Hc), Hl).
  unfold sanitizeLabel. rewrite (replaceInvalid_valid _ W).
  simpl. now rewrite Hc.
Qed.

(** X3.  The strings that [sanitizeLabel] returns as they are, are exactly
    the labels that satisfy the contract. *)
Theorem sanitizeLabel_fixed_points (l : jsstring) :
  sanitizeLabel (Some l) = l <-> validLabel l = true.
Proof.
  split.
  - intro H. rewrite <- H. apply sanitizeLabel_valid.
  - apply validLabel_unchanged.
Qed.

(** X4.  Sanitising twice is sanitising once. *)
Theorem sanitizeLabel_idempotent (entityType : option jsstring) :
  sanitizeLabel (Some (sanitizeLabel entityType)) = sanitizeLabel entityType.
Proof.
  apply validLabel_unchanged, sanitizeLabel_valid.
Qed.

(** A non-empty string keeps its length when it starts with a letter and
    grows by the two characters of the prefix otherwise. *)
Lemma sanitizeLabel_length (c : N) (s : jsstring) :
  List.length (sanitizeLabel (Some (c :: s)))
  = (if isLetter c then 0 else 2) + List.length (c :: s).
Proof.
  unfold sanitizeLabel. rewrite startsWithLetter_replaceInvalid.
  unfold replaceInvalid. simpl startsWithLetter.
  destruct (isLetter c); cbn [negb].
  - now rewrite length_map.
  - rewrite length_app, length_map. reflexivity.
Qed.

(** ** The add_label handlers *)

Section AddLabelFacts.

Variable Store : Type.
Variable addLabelToEntity : Store -> string -> string -> Store * result unit.

(** X5.  The two entry points for adding a label treat the manager alike:
    they leave the same store, call [addLabelToEntity] under the same
    condition, and the text of [handleAddLabel] is the result of
    [handleToolCall], or its error behind the words
    [Error adding label: ]. *)
Theorem handleAddLabel_handleToolCall (args : AddLabel.Args) (store : Store) :
  fst (AddLabel.handleAddLabel Store addLabelToEntity args store)
  = fst (AddLabel.handleToolCall_add_label Store addLabelToEntity args store) /\
  snd (AddLabel.handleAddLabel Store addLabelToEntity args store)
  = answerText
      (snd (AddLabel.handleToolCall_add_label Store addLabelToEntity args store)).
Proof.
  unfold AddLabel.handleAddLabel, AddLabel.handleToolCall_add_label.
  destruct (negb (truthy (AddLabel.entityName args))
            || negb (truthy (AddLabel.label args))); [split; reflexivity|].
  destruct (addLabelToEntity store (ToString (AddLabel.entityName args))
              (ToString (AddLabel.label args))) as [store' [u|e]];
    split; reflexivity.
Qed.

(** X6.  Without an entity name or without a label, neither entry point
    reaches the manager: the store is untouched, whatever
    [addLabelToEntity] would do, and the answer names both arguments. *)
Theorem add_label_requires_both_arguments (args : AddLabel.Args) (store : Store) :
  truthy (AddLabel.entityName args) && truthy (AddLabel.label args) = false ->
  AddLabel.handleAddLabel Store addLabelToEntity args store
  = (store, "Error adding label: Both entityName and label are required") /\
  AddLabel.handleToolCall_add_label Store addLabelToEntity args store
  = (store, AddLabel.ErrorAnswer "Both entityName and label are required").
Proof.
  intro H. unfold AddLabel.handleAddLabel, AddLabel.handleToolCall_add_label.
  assert (E : negb (truthy (AddLabel.entityName args))
              || negb (truthy (AddLabel.label args)) = true).
  { rewrite <- negb_andb. now rewrite H. }
  rewrite E. split; reflexivity.
Qed.

End AddLabelFacts.

Lemma add_label_requires_both_arguments_witness :
  AddLabel.handleAddLabel (list string)
    (fun st n l => (push st l, Returns tt))
    {| AddLabel.entityName := Some "Team1"; AddLabel.label := Some "" |} []
  = ([], "Error adding label: Both entityName and label are required") /\
  AddLabel.handleToolCall_add_label (list string)
    (fun st n l => (push st l, Returns tt))
    {| AddLabel.entityName := Some "Team1"; AddLabel.label := Some "" |} []
  = ([], AddLabel.ErrorAnswer "Both entityName and label are required").
Proof.
  exact (add_label_requires_both_arguments (list string)
           (fun st n l => (push st l, Returns tt))
           {| AddLabel.entityName := Some "Team1"; AddLabel.label := Some "" |}
           [] eq_refl).
Defined.

(** ** The label migration *)

Section MigrationFacts.

Variable Db : Type.
Variable addLabelQuery : Db -> jsstring -> jsstring -> Db * result nat.

Local Abbreviation processEntity := (Migration.processEntity Db addLabelQuery).

Lemma processEntity_progress (db : Db) (p : Migration.Progress)
  (e : Migration.Entity) :
  let p' := snd (processEntity (db, p) e) in
  Migration.updated p' + Migration.skipped p'
  = Migration.updated p + Migration.skipped p + 1 /\
  Migration.queries p'
  = (Migration.queries p ++ (if hasType e then [labelQuery e] else []))%list.
Proof.
  unfold Migration.processEntity, hasType, labelQuery.
  destruct (Migration.present (Migration.entityType e)); cbn [negb].
  - destruct (addLabelQuery db (Migration.name e)
                (sanitizeLabel (Migration.entityType e))) as [db' [records|err]];
      [destruct (0 <? records)%nat|]; simpl; split; (lia || reflexivity).
  - simpl. split; [lia | now rewrite app_nil_r].
Qed.

Lemma loop_counts (entities : list Migration.Entity) (db : Db)
  (p : Migration.Progress) :
  Migration.updated (snd (fold_left processEntity entities (db, p)))
  + Migration.skipped (snd (fold_left processEntity entities (db, p)))
  = Migration.updated p + Migration.skipped p + List.length entities.
Proof.
  revert db p. induction entities as [|e entities IH]; intros db p.
  - simpl. lia.
  - cbn [fold_left List.length].
    pose proof (processEntity_progress db p e) as [H _].
    destruct (processEntity (db, p) e) as [db' p'].
    rewrite IH. simpl in H. lia.
Qed.

Lemma loop_queries (entities : list Migration.Entity) (db : Db)
  (p : Migration.Progress) :
  Migration.queries (snd (fold_left processEntity entities (db, p)))
  = (Migration.queries p ++ map labelQuery (filter hasType entities))%list.
Proof.
  revert db p. induction entities as [|e entities IH]; intros db p.
  - simpl. now rewrite app_nil_r.
  - cbn [fold_left filter].
    pose proof (processEntity_progress db p e) as [_ H].
    destruct (processEntity (db, p) e) as [db' p'].
    rewrite IH. simpl in H. rewrite H.
    destruct (hasType e); simpl; now rewrite <- app_assoc.
Qed.

(** X7.  The label queries that reach the database during the loop are,
    in order, those of the entities that have an entity type, whatever
    earlier queries came to, and every label spliced into a query
    satisfies the contract of labels. *)
Theorem migration_queries (entities : list Migration.Entity)
  (db : Db) (p : Migration.Progress) :
  Migration.queries (snd (fold_left processEntity entities (db, p)))
  = (Migration.queries p ++ map labelQuery (filter hasType entities))%list /\
  Forall (fun q => validLabel (snd q) = true)
         (map labelQuery (filter hasType entities)).
Proof.
  split; [apply loop_queries|].
  apply Forall_forall. intros q Hq.
  apply in_map_iff in Hq as (e & <- & _). apply sanitizeLabel_valid.
Qed.

Lemma loop_updated (entities : list Migration.Entity) (db : Db)
  (p : Migration.Progress) :
  Migration.updated (snd (fold_left processEntity entities (db, p)))
  = Migration.updated p + labelled addLabelQuery db entities.
Proof.
  revert db p. induction entities as [|e entities IH]; intros db p.
  - simpl. lia.
  - cbn [fold_left labelled]. unfold Migration.processEntity at 2.
    unfold hasType, labelQuery. cbn [fst snd].
    destruct (Migration.present (Migration.entityType e)); cbn [negb].
    + destruct (addLabelQuery db (Migration.name e)
                  (sanitizeLabel (Migration.entityType e)))
        as [db' [[|records]|err]]; cbn [Nat.ltb Nat.leb];
        rewrite IH; cbn [Migration.updated]; lia.
    + rewrite IH. cbn [Migration.updated]. lia.
Qed.

Variable initialize : Db -> Db * result unit.
Variable fetchEntities : Db -> Db * result (list Migration.Entity).

(** X8.  Once the connection is initialised and the entities are fetched,
    the migration completes however the label queries go: [updated]
    counts the entities whose label query found a record, every other
    entity - without entity type, with a query that found no record, or
    with a query that was rejected - counts one in [skipped], so that the
    two totals add up to the number of entities fetched, and no entity
    sends more than one query. *)
Theorem migration_totals (db db1 db2 : Db) (entities : list Migration.Entity) :
  initialize db = (db1, Returns tt) ->
  fetchEntities db1 = (db2, Returns entities) ->
  exists db3 p,
    Migration.migrate Db initialize fetchEntities addLabelQuery db
    = (db3, Returns p) /\
    Migration.updated p = labelled addLabelQuery db2 entities /\
    Migration.updated p + Migration.skipped p = List.length entities /\
    List.length (Migration.queries p) <= List.length entities.
Proof.
  intros I F. unfold Migration.migrate. rewrite I, F.
  pose proof (loop_updated entities db2 Migration.start) as U.
  pose proof (loop_counts entities db2 Migration.start) as C.
  pose proof (loop_queries entities db2 Migration.start) as Q.
  destruct (fold_left processEntity entities (db2, Migration.start)) as [db3 p3].
  exists db3, p3. split; [reflexivity|]. split; [exact U|]. split; [exact C|].
  simpl in Q. rewrite Q, length_map. apply filter_length_le.
Qed.

End MigrationFacts.

(** Four entities, one of them without entity type, on a database that
    rejects the first label query and finds no record for the third: one
    entity is updated, three are skipped, and the migration completes. *)
Lemma migration_totals_witness :
  exists db3 p,
    Migration.migrate nat sampleInitialize sampleFetch sampleLabelQuery 0
    = (db3, Returns p) /\
    Migration.updated p = 1 /\
    Migration.updated p + Migration.skipped p = 4 /\
    List.length (Migration.queries p) <= 4.
Proof.
  exact (migration_totals nat sampleLabelQuery sampleInitialize sampleFetch
           0 0 0 sampleEntities eq_refl eq_refl).
Defined.

(** ** The guards of class Relation *)

Section RelationGuards.

Import RelationClass.

Lemma typeof_number (v : jsvalue) :
  String.eqb (typeof v) "number" = true -> exists n, v = JNumber n.
Proof. destruct v; try discriminate. eauto. Qed.

Lemma typeof_string (v : jsvalue) :
  String.eqb (typeof v) "string" = true -> exists s, v = JString s.
Proof. destruct v; try discriminate. eauto. Qed.

Lemma andThen_truthy (a : jsvalue) (b : bool) :
  truthyValue (andThen a b) = true ->
  truthyValue a = true /\ b = true /\ andThen a b = JBoolean true.
Proof.
  unfold andThen. destruct (truthyValue a) eqn:T.
  - simpl. now intros ->.
  - rewrite T. discriminate.
Qed.

Lemma unit_interval (v : jsvalue) :
  atLeastZero v = true -> atMostOne v = true ->
  exists q, v = JNumber (Finite q) /\
            QArith_base.Qle (QArith_base.inject_Z 0) q /\
            QArith_base.Qle q (QArith_base.inject_Z 1).
Proof.
  destruct v as [| | | [q| | |] | | |]; try discriminate.
  simpl. intros H0 H1. exists q.
  now rewrite <- !QArith_base.Qle_bool_iff.
Qed.

(** X9.  [hasStrength] and [hasConfidence] accept only what [isRelation]
    accepts, and then only a finite number between 0 and 1 in the field
    they guard: NaN and the infinities are refused. *)
Theorem hasStrength_hasConfidence_sound (obj : jsvalue) :
  (truthyValue (hasStrength obj) = true ->
   isRelation obj = JBoolean true /\
   exists q, prop obj "strength" = JNumber (Finite q) /\
             QArith_base.Qle (QArith_base.inject_Z 0) q /\
             QArith_base.Qle q (QArith_base.inject_Z 1)) /\
  (truthyValue (hasConfidence obj) = true ->
   isRelation obj = JBoolean true /\
   exists q, prop obj "confidence" = JNumber (Finite q) /\
             QArith_base.Qle (QArith_base.inject_Z 0) q /\
             QArith_base.Qle q (QArith_base.inject_Z 1)).
Proof.
  split; intro H.
  - apply andThen_truthy in H as (R & B & _).
    apply andThen_truthy in R as (_ & _ & R).
    split; [exact R|].
    apply andb_true_iff in B as [B B1]. apply andb_true_iff in B as [_ B0].
    now apply unit_interval.
  - apply andThen_truthy in H as (R & B & _).
    apply andThen_truthy in R as (_ & _ & R).
    split; [exact R|].
    apply andb_true_iff in B as [B B1]. apply andb_true_iff in B as [_ B0].
    now apply unit_interval.
Qed.

(** X10.  A falsy argument comes back as it is from [isRelation],
    [hasStrength] and [hasConfidence], which therefore do not always
    answer with a boolean; [hasValidMetadata] answers [false]. *)
Theorem guards_return_falsy_argument (obj : jsvalue) :
  truthyValue obj = false ->
  isRelation obj = obj /\ hasStrength obj = obj /\ hasConfidence obj = obj /\
  hasValidMetadata obj = false.
Proof.
  intro H.
  assert (R : isRelation obj = obj) by (unfold isRelation, andThen; now rewrite H).
  unfold hasStrength, hasConfidence, hasValidMetadata.
  rewrite !R. unfold andThen. rewrite !H. auto.
Qed.

(** X11.  What [hasValidMetadata] accepts is accepted by [isRelation] and
    carries an object as metadata, not [null] and not a bare array, whose
    [createdAt] and [updatedAt] are numbers, whose [lastAccessed] is
    absent or a number, and whose [inferredFrom] is absent or an array of
    strings. *)
Theorem hasValidMetadata_sound (obj : jsvalue) :
  hasValidMetadata obj = true ->
  isRelation obj = JBoolean true /\
  exists m,
    prop obj "metadata" = JObject m /\
    (exists n, prop (JObject m) "createdAt" = JNumber n) /\
    (exists n, prop (JObject m) "updatedAt" = JNumber n) /\
    (prop (JObject m) "lastAccessed" = JUndefined \/
     exists n, prop (JObject m) "lastAccessed" = JNumber n) /\
    (prop (JObject m) "inferredFrom" = JUndefined \/
     exists ids,
       prop (JObject m) "inferredFrom" = JArray ids /\
       Forall (fun id => exists s, id = JString s) ids).
Proof.
  unfold hasValidMetadata.
  destruct (truthyValue (isRelation obj)) eqn:R; [|discriminate].
  cbn [negb orb].
  destruct (truthyValue (prop obj "metadata")) eqn:M; [|discriminate].
  cbn [negb].
  unfold isRelation in R. apply andThen_truthy in R as (_ & _ & R).
  fold (isRelation obj) in R.
  destruct (String.eqb (typeof (prop (prop obj "metadata") "createdAt")) "number")
    eqn:C; [|discriminate].
  destruct (String.eqb (typeof (prop (prop obj "metadata") "updatedAt")) "number")
    eqn:U; [|discriminate].
  cbn [negb orb].
  intro H. split; [exact R|].
  apply typeof_number in C as [nc C]. apply typeof_number in U as [nu U].
  destruct (prop obj "metadata") as [| | | | | |m] eqn:E; try discriminate.
  exists m. split; [reflexivity|].
  split; [eauto|]. split; [eauto|]. split.
  - destruct (prop (JObject m) "lastAccessed") eqn:L; auto; try discriminate.
    right. eauto.
  - destruct (isUndefined (prop (JObject m) "lastAccessed")
              || String.eqb (typeof (prop (JObject m) "lastAccessed")) "number")
      eqn:L.
    + assert (L' : negb (isUndefined (prop (JObject m) "lastAccessed"))
                   && negb (String.eqb
                              (typeof (prop (JObject m) "lastAccessed")) "number")
                   = false)
        by (rewrite <- negb_orb; now rewrite L).
      rewrite L' in H.
      destruct (prop (JObject m) "inferredFrom") as [| | | | |ids|] eqn:I;
        auto; try discriminate.
      right. exists ids. split; [reflexivity|].
      simpl in H. clear - H.
      induction ids as [|id ids IH]; constructor.
      * simpl in H.
        destruct (String.eqb (typeof id) "string") eqn:S'; [|discriminate].
        now apply typeof_string.
      * apply IH. simpl in H.
        now destruct (String.eqb (typeof id) "string").
    + assert (L' : negb (isUndefined (prop (JObject m) "lastAccessed"))
                   && negb (String.eqb
                              (typeof (prop (JObject m) "lastAccessed")) "number")
                   = true)
        by (rewrite <- negb_orb; now rewrite L).
      rewrite L' in H. discriminate.
Qed.

Lemma prop_set_same (o : list (string * jsvalue)) (k : string) (v : jsvalue) :
  prop (JObject (JsObject.set o k v)) k = v.
Proof. unfold prop. now rewrite get_set_same. Qed.

Lemma prop_set_other (o : list (string * jsvalue)) (k k' : string)
  (v : jsvalue) :
  k <> k' -> prop (JObject (JsObject.set o k v)) k' = prop (JObject o) k'.
Proof. intro H. unfold prop. now rewrite get_set_other. Qed.

(** X12.  [isRelation] looks at the type of [strength] only: what it
    accepts, it still accepts after [strength] is set to any number, NaN
    and the infinities included, and it is [hasStrength] that then tells
    whether that number lies between 0 and 1. *)
Theorem isRelation_ignores_strength_range (o : list (string * jsvalue))
  (n : number) :
  isRelation (JObject o) = JBoolean true ->
  isRelation (JObject (JsObject.set o "strength" (JNumber n))) = JBoolean true /\
  hasStrength (JObject (JsObject.set o "strength" (JNumber n)))
  = JBoolean (atLeastZero (JNumber n) && atMostOne (JNumber n)).
Proof.
  intro R.
  assert (R' : isRelation (JObject (JsObject.set o "strength" (JNumber n)))
               = JBoolean true).
  { unfold isRelation, andThen in *. cbn [truthyValue] in *.
    rewrite prop_set_same.
    rewrite !(prop_set_other o "strength") by discriminate.
    injection R as R. f_equal.
    repeat (apply andb_true_iff in R as [R ?]).
    repeat (apply andb_true_iff; split); auto. }
  split; [exact R'|].
  unfold hasStrength. rewrite R'. unfold andThen. cbn [truthyValue].
  now rewrite prop_set_same.
Qed.

End RelationGuards.

Lemma hasStrength_hasConfidence_sound_witness :
  RelationClass.isRelation knowsRelation = RelationClass.JBoolean true /\
  exists q,
    RelationClass.prop knowsRelation "strength"
    = RelationClass.JNumber (RelationClass.Finite q) /\
    QArith_base.Qle (QArith_base.inject_Z 0) q /\
    QArith_base.Qle q (QArith_base.inject_Z 1).
Proof.
  exact (proj1 (hasStrength_hasConfidence_sound knowsRelation) eq_refl).
Defined.

Lemma guards_return_falsy_argument_witness :
  RelationClass.isRelation RelationClass.JNull = RelationClass.JNull /\
  RelationClass.hasStrength RelationClass.JNull = RelationClass.JNull /\
  RelationClass.hasConfidence RelationClass.JNull = RelationClass.JNull /\
  RelationClass.hasValidMetadata RelationClass.JNull = false.
Proof.
  exact (guards_return_falsy_argument RelationClass.JNull eq_refl).
Defined.

Lemma hasValidMetadata_sound_witness :
  RelationClass.isRelation knowsRelation = RelationClass.JBoolean true /\
  exists m,
    RelationClass.prop knowsRelation "metadata" = RelationClass.JObject m.
Proof.
  destruct (hasValidMetadata_sound knowsRelation eq_refl) as (R & m & M & _).
  split; [exact R|]. now exists m.
Defined.

Lemma isRelation_ignores_strength_range_witness :
  RelationClass.hasStrength
    (RelationClass.JObject
       (JsObject.set
          [ ("from", RelationClass.JString "Ann");
            ("to", RelationClass.JString "Bob");
            ("relationType", RelationClass.JString "knows") ]
          "strength" (RelationClass.JNumber RelationClass.NaN)))
  = RelationClass.JBoolean false.
Proof.
  exact (proj2
           (isRelation_ignores_strength_range
              [ ("from", RelationClass.JString "Ann");
                ("to", RelationClass.JString "Bob");
                ("relationType", RelationClass.JString "knows") ]
              RelationClass.NaN eq_refl)).
Defined.

(** ** The embedding backfill: what it leaves alone *)

Section BackfillJob.

Variable Vector : Type.
Variable Store : Type.
Variable JSON_parse : string -> result value.
Variable generateEmbedding : string -> result Vector.
Variable modelName : string.
Variable Date_now : Z.

Section WithProvider.

Variable updateEntityEmbedding :
  option (Store -> string -> Backfill.EntityEmbedding Vector -> result Store).

Local Abbreviation processEntity :=
  (Backfill.processEntity Vector Store JSON_parse generateEmbedding modelName
     Date_now updateEntityEmbedding).
Local Abbreviation forOf :=
  (Backfill.forOf Vector Store JSON_parse generateEmbedding modelName
     Date_now updateEntityEmbedding).
Local Abbreviation main :=
  (Backfill.main Vector Store JSON_parse generateEmbedding modelName
     Date_now updateEntityEmbedding).

Lemma processEntity_embedded (st : Backfill.State Store)
  (e : Backfill.Entity Vector) :
  lacksEmbedding e = false -> processEntity st e = (st, Backfill.Running).
Proof.
  unfold lacksEmbedding, Backfill.processEntity.
  now destruct (Backfill.embedding e).
Qed.

Lemma forOf_filter (l : list (Backfill.Entity Vector))
  (st : Backfill.State Store) :
  forOf l st = forOf (filter lacksEmbedding l) st.
Proof.
  revert st. induction l as [|e l IH]; intro st; [reflexivity|].
  cbn [filter Backfill.forOf]. destruct (lacksEmbedding e) eqn:L.
  - cbn [Backfill.forOf]. destruct (processEntity st e) as [st' [| |]]; auto.
  - rewrite (processEntity_embedded st e L). apply IH.
Qed.

(** X13.  The job is blind to the entities that already carry an
    embedding: with or without them in the graph, and wherever they stand,
    it ends in the same state with the same exit code. *)
Theorem main_skips_embedded (l : list (Backfill.Entity Vector))
  (st : Backfill.State Store) :
  main l st = main (filter lacksEmbedding l) st.
Proof. unfold Backfill.main. now rewrite forOf_filter. Qed.

Lemma forOf_running (l : list (Backfill.Entity Vector))
  (st st' : Backfill.State Store) :
  forOf l st = (st', Backfill.Running) ->
  Backfill.updated st'
  = Backfill.updated st + List.length (filter lacksEmbedding l).
Proof.
  revert st. induction l as [|e l IH]; intros st H.
  - injection H as <-. simpl. lia.
  - cbn [Backfill.forOf] in H. cbn [filter].
    destruct (lacksEmbedding e) eqn:L.
    + unfold Backfill.processEntity, lacksEmbedding in *.
      destruct (Backfill.embedding e); [discriminate|].
      destruct (generateEmbedding _); [|discriminate].
      destruct updateEntityEmbedding as [update|]; [|discriminate].
      destruct (update _ _ _); [|discriminate].
      apply IH in H. cbn [Backfill.updated List.length] in *. lia.
    + rewrite (processEntity_embedded st e L) in H. now apply IH.
Qed.

Lemma forOf_exit_code (l : list (Backfill.Entity Vector))
  (st st' : Backfill.State Store) (code : nat) :
  forOf l st = (st', Backfill.Exited code) -> code = 1.
Proof.
  revert st. induction l as [|e l IH]; intros st H; [discriminate|].
  cbn [Backfill.forOf] in H.
  destruct (processEntity st e) as [st1 [| |c]] eqn:P.
  - eauto.
  - discriminate.
  - injection H as _ <-.
    unfold Backfill.processEntity in P.
    destruct (Backfill.embedding e); [discriminate|].
    destruct (generateEmbedding _); [|discriminate].
    destruct updateEntityEmbedding as [update|].
    + destruct (update _ _ _); discriminate.
    + now injection P as _ <-.
Qed.

(** X14.  Exit status 0 means that the whole graph was worked through:
    [updated] has grown by the number of entities that had no embedding,
    and the last line of the log reports it. *)
Theorem main_exit_zero (l : list (Backfill.Entity Vector))
  (st st' : Backfill.State Store) :
  main l st = (st', 0) ->
  Backfill.updated st'
  = Backfill.updated st + List.length (filter lacksEmbedding l) /\
  exists lines,
    Backfill.log st'
    = push lines ("Updated embeddings for "
                  ++ Number_toString (Backfill.updated st') ++ " entities.").
Proof.
  unfold Backfill.main.
  destruct (forOf l st) as [st1 [|err|code]] eqn:F.
  - intros [= <-]. cbn [Backfill.updated Backfill.log]. split.
    + now apply forOf_running in F.
    + now exists (Backfill.log st1).
  - discriminate.
  - apply forOf_exit_code in F. subst code. discriminate.
Qed.

End WithProvider.

Lemma forOf_without_update (l : list (Backfill.Entity Vector))
  (st : Backfill.State Store) :
  exists st' c,
    Backfill.forOf Vector Store JSON_parse generateEmbedding modelName
      Date_now None l st = (st', c) /\
    Backfill.store st' = Backfill.store st /\
    Backfill.updated st' = Backfill.updated st /\
    (if existsb lacksEmbedding l
     then (exists err, c = Backfill.Thrown err) \/ c = Backfill.Exited 1
     else c = Backfill.Running).
Proof.
  revert st. induction l as [|e l IH]; intro st.
  - exists st, Backfill.Running. repeat split.
  - cbn [Backfill.forOf existsb].
    unfold Backfill.processEntity, lacksEmbedding at 1.
    destruct (Backfill.embedding e).
    + cbn [orb]. apply IH.
    + cbn [orb]. destruct (generateEmbedding _) as [v|err].
      * eexists _, _. split; [reflexivity|]. cbn. auto.
      * eexists _, _. split; [reflexivity|]. cbn. eauto.
Qed.

(** X15.  With a storage provider that has no [updateEntityEmbedding] the
    job stores nothing and counts nothing, and it exits with status 0 only
    when no entity of the graph lacks an embedding; otherwise with 1. *)
Theorem main_without_update (l : list (Backfill.Entity Vector))
  (st : Backfill.State Store) :
  let outcome :=
    Backfill.main Vector Store JSON_parse generateEmbedding modelName
      Date_now None l st in
  Backfill.store (fst outcome) = Backfill.store st /\
  Backfill.updated (fst outcome) = Backfill.updated st /\
  snd outcome = if existsb lacksEmbedding l then 1 else 0.
Proof.
  cbv zeta. unfold Backfill.main.
  destruct (forOf_without_update l st) as (st' & c & -> & S' & U & C).
  destruct (existsb lacksEmbedding l).
  - destruct C as [[err ->] | ->]; cbn; auto.
  - subst c. cbn. auto.
Qed.

End BackfillJob.

Lemma main_exit_zero_witness :
  Backfill.updated (fst (runBackfill [entityB; entityB])) = 2 /\
  exists lines,
    Backfill.log (fst (runBackfill [entityB; entityB]))
    = push lines "Updated embeddings for 2 entities.".
Proof.
  exact (main_exit_zero nat (list string) noJson failingService "test-model"
           0%Z nameStore [entityB; entityB] emptyState
           (fst (runBackfill [entityB; entityB])) eq_refl).
Defined.

(** ** The aggregation: absent arrays *)

Lemma forEach_without_entities (rs : list Relation)
  (acc : JsObject.t (list Connection)) :
  forEachM (processRelation None) rs acc
  = if existsb (fun r => truthy (relationType r)) rs
    then Throws (TypeError "Cannot read properties of undefined (reading 'find')")
    else Returns acc.
Proof.
  induction rs as [|r rs IH]; [reflexivity|].
  cbn [forEachM existsb]. unfold processRelation at 1, truthy at 1.
  destruct (relationType r) as [[|ch rt]|]; cbn [bind orb]; auto.
Qed.

(** X16.  A graph without [entities]: [extractOntology] returns two empty
    maps as long as no relation has a relation type, and throws a
    [TypeError] at the first relation that has one; the inline case of
    [handleToolCall] throws in either case, before it looks at the
    relations. *)
Theorem extractOntology_without_entities
  (localeCompare : string -> string -> Z) (rs : list Relation) :
  extractOntology {| entities := None; relations := Some rs |}
  = (if existsb (fun r => truthy (relationType r)) rs
     then Throws (TypeError "Cannot read properties of undefined (reading 'find')")
     else Returns {| entityTypes := JsObject.empty;
                     relationTypes := JsObject.empty |}) /\
  handleToolCall_get_ontology localeCompare
    {| entities := None; relations := Some rs |}
  = Throws (TypeError "Cannot read properties of undefined (reading 'forEach')").
Proof.
  split; [|reflexivity].
  unfold extractOntology. cbn [entities relations].
  rewrite forEach_without_entities.
  now destruct (existsb _ rs).
Qed.

(** ** The aggregation: nothing is lost and nothing counted twice *)

Section Weights.

Context {V : Type}.
Variable weight : V -> nat.

Lemma sum_update (o : JsObject.t V) (k : string) (v x : V) :
  JsObject.get o k = Some x ->
  sum (map weight (JsObject.values (JsObject.update o k v))) + weight x
  = sum (map weight (JsObject.values o)) + weight v.
Proof.
  unfold JsObject.values.
  induction o as [|[k' v'] o IH]; simpl; [discriminate|].
  destruct (String.eqb k' k); simpl.
  - intros [= ->]. lia.
  - intro H. specialize (IH H). lia.
Qed.

Lemma sum_insert_new (o : JsObject.t V) (k : string) (v : V) :
  sum (map weight (JsObject.values (JsObject.insert_new o k v)))
  = sum (map weight (JsObject.values o)) + weight v.
Proof.
  unfold JsObject.values.
  induction o as [|[k' v'] o IH]; simpl; [lia|].
  destruct (JsObject.precedes k k'); simpl; lia.
Qed.

Lemma sum_set (o : JsObject.t V) (k : string) (v : V) :
  sum (map weight (JsObject.values (JsObject.set o k v)))
  + match JsObject.get o k with Some x => weight x | None => 0 end
  = sum (map weight (JsObject.values o)) + weight v.
Proof.
  unfold JsObject.set. destruct (JsObject.get o k) as [x|] eqn:E.
  - now apply sum_update.
  - rewrite sum_insert_new. lia.
Qed.

End Weights.

Lemma totalCount_sum (l : list Connection) : totalCount l = sum (map count l).
Proof. induction l as [|c l IH]; simpl; [reflexivity | now rewrite <- IH]. Qed.

Lemma totalCount_app (l1 l2 : list Connection) :
  totalCount (l1 ++ l2)%list = totalCount l1 + totalCount l2.
Proof. induction l1 as [|c l1 IH]; simpl; [reflexivity | rewrite IH; lia]. Qed.

Lemma totalCount_perm (l1 l2 : list Connection) :
  Permutation l1 l2 -> totalCount l1 = totalCount l2.
Proof. induction 1; simpl; lia. Qed.

Lemma totalCount_incrementFirst (p : Connection -> bool) (l : list Connection) :
  find p l <> None -> totalCount (incrementFirst p l) = totalCount l + 1.
Proof.
  induction l as [|c l IH]; simpl; [congruence|].
  destruct (p c); simpl; intro H; [lia|]. rewrite IH by exact H. lia.
Qed.

Lemma sum_countPlain (acc : JsObject.t nat) (e : Entity) :
  sum (JsObject.values (countPlain acc e))
  = sum (JsObject.values acc) + (if truthy (entityType e) then 1 else 0).
Proof.
  unfold countPlain, truthy.
  destruct (entityType e) as [[|ch ty]|]; try lia.
  pose proof (sum_set (fun n : nat => n) acc (String ch ty)
                (match JsObject.get acc (String ch ty) with
                 | Some n => n
                 | None => 0
                 end + 1)) as H.
  rewrite !map_id in H.
  destruct (JsObject.get acc (String ch ty)); lia.
Qed.

Lemma sum_fold_countPlain (es : list Entity) (acc : JsObject.t nat) :
  sum (JsObject.values (fold_left countPlain es acc))
  = sum (JsObject.values acc)
    + List.length (filter (fun e => truthy (entityType e)) es).
Proof.
  revert acc. induction es as [|e es IH]; intro acc; cbn [fold_left filter].
  - simpl. lia.
  - rewrite IH, sum_countPlain.
    destruct (truthy (entityType e)); cbn [List.length]; lia.
Qed.

Lemma values_counts (m : JsObject.t nat) :
  JsObject.values (counts m) = map Count (JsObject.values m).
Proof. unfold JsObject.values, counts. now rewrite !map_map. Qed.

Lemma sum_recordConnection (m : JsObject.t (list Connection)) (rt : string)
  (ft tt : option string) :
  sum (map totalCount (JsObject.values (recordPlain m rt ft tt)))
  = sum (map totalCount (JsObject.values m)) + 1.
Proof.
  unfold recordPlain.
  assert (N : totalCount
                (push (@nil Connection)
                   {| conn_from := ft; conn_to := tt; count := 1 |}) = 1)
    by reflexivity.
  destruct (JsObject.get m rt) as [l|] eqn:G.
  - rewrite G.
    destruct (find (sameConnection ft tt) l) eqn:F.
    + pose proof (sum_set totalCount m rt
                    (incrementFirst (sameConnection ft tt) l)) as H.
      rewrite G, totalCount_incrementFirst in H by congruence. lia.
    + pose proof (sum_set totalCount m rt
                    (push l {| conn_from := ft; conn_to := tt; count := 1 |}))
        as H.
      rewrite G in H. unfold push in H. rewrite totalCount_app in H.
      simpl in H. unfold push. lia.
  - rewrite get_set_same. cbn [find].
    pose proof (sum_set totalCount m rt (@nil Connection)) as H0.
    rewrite G in H0.
    pose proof (sum_set totalCount (JsObject.set m rt []) rt
                  (push [] {| conn_from := ft; conn_to := tt; count := 1 |}))
      as H1.
    rewrite get_set_same, N in H1. simpl in H0, H1. lia.
Qed.

Lemma sum_forEach (es : list Entity) (rs : list Relation)
  (acc m : JsObject.t (list Connection)) :
  forEachM (processRelation (Some es)) rs acc = Returns m ->
  sum (map totalCount (JsObject.values m))
  = sum (map totalCount (JsObject.values acc))
    + List.length (filter (fun r => negb (skipped es r)) rs).
Proof.
  revert acc. induction rs as [|r rs IH]; intros acc H.
  - injection H as <-. simpl. lia.
  - cbn [forEachM] in H. cbn [filter].
    destruct (skipped es r) eqn:Hs; cbn [negb].
    + rewrite (processRelation_skipped _ _ _ Hs) in H. now apply IH.
    + destruct (processRelation_kept es acc r Hs)
        as (rt0 & ft0 & tt0 & _ & _ & E).
      rewrite E in H.
      destruct (recordConnection acc rt0 ft0 tt0) as [x|] eqn:R;
        cbn [bind] in H; [|discriminate].
      apply recordConnection_returns in R. subst x. apply IH in H.
      rewrite sum_recordConnection in H. cbn [List.length]. lia.
Qed.

(** X17.  On a graph none of whose entity types and relation types is a
    name that [Object.prototype] answers to, the counts of
    [extractOntology] add up: the values of [entityTypes] are numbers
    whose sum is the number of records with a non-empty [entityType], and
    the counts of all the connections of [relationTypes] sum to the number
    of relations that have a relation type and two ends that resolve. *)
Theorem extractOntology_conserves_counts (es : list Entity) (rs : list Relation) :
  plainGraph es rs ->
  exists o,
    extractOntology {| entities := Some es; relations := Some rs |} = Returns o /\
    (forall v, In v (JsObject.values (entityTypes o)) -> exists n, v = Count n) /\
    sum (map numberOf (JsObject.values (entityTypes o)))
    = List.length (filter (fun e => truthy (entityType e)) es) /\
    sum (map totalCount (JsObject.values (relationTypes o)))
    = List.length (filter (fun r => negb (skipped es r)) rs).
Proof.
  intros [Pe Pr].
  destruct (tally_forEach es rs JsObject.empty (fun r H _ => Pr r H))
    as (m & Hm & _).
  unfold extractOntology. cbn [entities relations]. rewrite Hm. cbn [bind].
  eexists. split; [reflexivity|]. cbn [entityTypes relationTypes].
  change (@JsObject.empty Tally) with (counts JsObject.empty).
  rewrite (fold_countEntity_plain es JsObject.empty Pe), values_counts.
  split; [|split].
  - intros v Hv. apply in_map_iff in Hv as (n & <- & _). now exists n.
  - rewrite map_map. cbn [numberOf]. rewrite map_id.
    now rewrite sum_fold_countPlain.
  - now rewrite (sum_forEach es rs _ _ Hm).
Qed.

Lemma extractOntology_conserves_counts_witness :
  exists o,
    extractOntology teamGraph = Returns o /\
    (forall v, In v (JsObject.values (entityTypes o)) -> exists n, v = Count n) /\
    sum (map numberOf (JsObject.values (entityTypes o))) = 4 /\
    sum (map totalCount (JsObject.values (relationTypes o))) = 3.
Proof.
  exact (extractOntology_conserves_counts teamEntities teamRelations
           teamGraph_plain).
Defined.

Section Grouping.

Variable localeCompare : string -> string -> Z.

Lemma sum_groupConnection (acc : JsObject.t Connection) (c : Connection) :
  sum (map count (JsObject.values (groupConnection acc c)))
  = sum (map count (JsObject.values acc)) + count c.
Proof.
  unfold groupConnection.
  destruct (JsObject.get acc (connectionKey c)) as [g|] eqn:G.
  - pose proof (sum_set count acc (connectionKey c)
                  {| conn_from := conn_from g; conn_to := conn_to g;
                     count := count g + count c |}) as H.
    rewrite G in H. simpl in H. lia.
  - pose proof (sum_set count acc (connectionKey c) c) as H.
    rewrite G in H. lia.
Qed.

Lemma sum_fold_groupConnection (l : list Connection)
  (acc : JsObject.t Connection) :
  sum (map count (JsObject.values (fold_left groupConnection l acc)))
  = sum (map count (JsObject.values acc)) + totalCount l.
Proof.
  revert acc. induction l as [|c l IH]; intro acc; cbn [fold_left].
  - simpl. lia.
  - rewrite IH, sum_groupConnection. simpl. lia.
Qed.

(** X18.  Grouping the connections of a relation type by their
    "from→to" key merges entries but keeps the total of their counts, and
    so does the sorting that follows: the counts printed for a relation
    type add up to those stored for it. *)
Theorem groupConnections_conserves_counts (l : list Connection) :
  totalCount (JsObject.values (groupConnections l)) = totalCount l /\
  forall sorted,
    Array_sort (compareConnections localeCompare)
      (JsObject.values (groupConnections l)) = Returns sorted ->
    totalCount sorted = totalCount l.
Proof.
  assert (T : totalCount (JsObject.values (groupConnections l)) = totalCount l).
  { rewrite totalCount_sum. unfold groupConnections.
    now rewrite sum_fold_groupConnection. }
  split; [exact T|].
  intros sorted H. apply Array_sort_perm in H.
  now rewrite <- (totalCount_perm _ _ H).
Qed.

End Grouping.

(** ** The sentence for an empty graph *)

Lemma set_not_empty {V : Type} (o : JsObject.t V) (k : string) (v : V) :
  JsObject.set o k v <> [].
Proof.
  intro H. pose proof (get_set_same o k v) as G. rewrite H in G. discriminate.
Qed.

Lemma proto_accessor (k : string) :
  JsObject.Object_prototype k = Some JsObject.ProtoAccessor <-> k = "__proto__".
Proof.
  split; [|now intros ->].
  unfold JsObject.Object_prototype.
  destruct (String.eqb k "constructor"); [discriminate|].
  destruct (existsb _ _); [discriminate|].
  destruct (String.eqb_spec k "__proto__"); [auto | discriminate].
Qed.

Lemma countEntity_empty (acc : JsObject.t Tally) (e : Entity) :
  countEntity acc e = [] <-> acc = [] /\ unseen e = true.
Proof.
  unfold countEntity, unseen, truthy.
  destruct (entityType e) as [[|ch ty]|]; try tauto.
  cbn [negb orb sameType]. unfold JsObject.assign, JsObject.read.
  destruct (JsObject.get acc (String ch ty)) as [v|] eqn:G.
  - split; [intro A; now apply set_not_empty in A|].
    intros [-> _]. discriminate.
  - destruct (JsObject.Object_prototype (String ch ty)) as [[f|]|] eqn:P.
    + split; [intro A; now apply set_not_empty in A|].
      intros [_ B]. apply String.eqb_eq in B. rewrite B in P. discriminate.
    + apply proto_accessor in P. rewrite P. tauto.
    + split; [intro A; now apply set_not_empty in A|].
      intros [_ B]. apply String.eqb_eq in B. rewrite B in P. discriminate.
Qed.

Lemma fold_countEntity_empty (es : list Entity) (acc : JsObject.t Tally) :
  fold_left countEntity es acc = [] <->
  acc = [] /\ forall e, In e es -> unseen e = true.
Proof.
  revert acc. induction es as [|e es IH]; intro acc; cbn [fold_left].
  - split; [intro H; split; [exact H | intros e []] | tauto].
  - rewrite IH, countEntity_empty. split.
    + intros [[A T] B]. split; [exact A|]. intros x [<-|Hx]; auto.
    + intros [A B]. split; [split; [exact A|]|].
      * apply B. now left.
      * intros x Hx. apply B. now right.
Qed.

Lemma recordConnection_not_empty (m : JsObject.t (list Connection))
  (rt : string) (ft tt : option string) :
  recordPlain m rt ft tt <> [].
Proof.
  unfold recordPlain.
  destruct (find _ _); apply set_not_empty.
Qed.

Lemma forEach_empty (es : list Entity) (rs : list Relation)
  (acc m : JsObject.t (list Connection)) :
  forEachM (processRelation (Some es)) rs acc = Returns m ->
  (m = [] <-> acc = [] /\ forall r, In r rs -> skipped es r = true).
Proof.
  revert acc. induction rs as [|r rs IH]; intros acc H.
  - injection H as <-. split; [intro A; split; [exact A | intros r []] | tauto].
  - cbn [forEachM] in H. destruct (skipped es r) eqn:Hs.
    + rewrite (processRelation_skipped _ _ _ Hs) in H. cbn [bind] in H.
      rewrite (IH _ H). split; intros [A B]; (split; [exact A|]).
      * intros x [<-|Hx]; auto.
      * intros x Hx. apply B. now right.
    + destruct (processRelation_kept es acc r Hs)
        as (rt0 & ft0 & tt0 & _ & _ & E).
      rewrite E in H.
      destruct (recordConnection acc rt0 ft0 tt0) as [x|] eqn:R;
        cbn [bind] in H; [|discriminate].
      apply recordConnection_returns in R. subst x. rewrite (IH _ H).
      split; intros [A B].
      * now apply recordConnection_not_empty in A.
      * specialize (B r (or_introl eq_refl)). congruence.
Qed.

Lemma forEach_all_skipped (es : list Entity) (rs : list Relation)
  (acc : JsObject.t (list Connection)) :
  (forall r, In r rs -> skipped es r = true) ->
  forEachM (processRelation (Some es)) rs acc = Returns acc.
Proof.
  induction rs as [|r rs IH]; intro H; [reflexivity|].
  cbn [forEachM].
  rewrite (processRelation_skipped _ _ _ (H r (or_introl eq_refl))).
  cbn [bind]. apply IH. intros x Hx. apply H. now right.
Qed.

Section EmptySentence.

Variable localeCompare : string -> string -> Z.

Lemma formatRelationType_extends (output text : string)
  (entry : string * list Connection) :
  formatRelationType localeCompare output entry = Returns text ->
  exists rest, text = output ++ rest.
Proof.
  unfold formatRelationType.
  destruct (Array_sort _ _) as [sorted|]; cbn [bind]; [|discriminate].
  intros [= <-]. rewrite fold_left_append. eauto.
Qed.

Lemma forEach_extends (sorted : list (string * list Connection))
  (output text : string) :
  forEachM (formatRelationType localeCompare) sorted output = Returns text ->
  exists rest, text = output ++ rest.
Proof.
  revert output. induction sorted as [|entry sorted IH]; intros output H.
  - injection H as <-. exists "". now rewrite append_empty_r.
  - cbn [forEachM] in H.
    destruct (formatRelationType localeCompare output entry) as [out|] eqn:F;
      cbn [bind] in H; [|discriminate].
    apply formatRelationType_extends in F as [r1 ->].
    apply IH in H as [r2 ->]. exists (r1 ++ r2). apply append_assoc.
Qed.

(** [formatOntology] answers with the sentence for an empty graph only
    when both maps are empty. *)
Lemma formatOntology_empty_sentence (o : OntologyData) :
  formatOntology localeCompare o
  = Returns "No entities or relations found in the knowledge graph." <->
  entityTypes o = [] /\ relationTypes o = [].
Proof.
  split.
  - destruct o as [et rt]. unfold formatOntology, JsObject.entries.
    cbn [entityTypes relationTypes].
    destruct et as [|e0 et].
    + destruct rt as [|r0 rt]; [auto|].
      cbn [List.length Nat.eqb Nat.ltb Nat.leb andb bind].
      destruct (Array_sort _ _) as [sorted|]; cbn [bind]; [|discriminate].
      intro H. apply forEach_extends in H as [rest H].
      simpl in H. discriminate.
    + cbn [List.length Nat.eqb Nat.ltb Nat.leb andb].
      destruct (Array_sort (compareKeys localeCompare) (e0 :: et))
        as [sorted|] eqn:S1; cbn [bind]; [|discriminate].
      apply Array_sort_perm in S1.
      destruct sorted as [|e1 sorted];
        [apply Permutation_length in S1; discriminate|].
      rewrite fold_left_append. cbn [map joined fold_right].
      unfold entityLine at 1.
      destruct rt as [|r0 rt]; cbn [List.length Nat.ltb Nat.leb].
      * intro H. simpl in H. discriminate.
      * destruct (Array_sort _ _) as [sorted2|]; cbn [bind]; [|discriminate].
        intro H. apply forEach_extends in H as [rest H].
        simpl in H. discriminate.
  - intros [E R]. destruct o as [et rt]. simpl in E, R. now subst.
Qed.

(** X19.  On a graph with both arrays the handler answers with the
    sentence for an empty graph exactly when every record is without an
    [entityType], has an empty one or has the one called [__proto__],
    which the assignment swallows, and no relation is kept, however many
    records and relations the graph holds. *)
Theorem handleGetOntology_empty_sentence (es : list Entity) (rs : list Relation) :
  handleGetOntology localeCompare
    {| entities := Some es; relations := Some rs |}
  = Returns "No entities or relations found in the knowledge graph." <->
  (forall e, In e es -> unseen e = true) /\
  (forall r, In r rs -> skipped es r = true).
Proof.
  unfold handleGetOntology, extractOntology. cbn [entities relations].
  split.
  - destruct (forEachM (processRelation (Some es)) rs JsObject.empty)
      as [m|err] eqn:Hm; cbn [bind]; [|discriminate].
    rewrite formatOntology_empty_sentence. cbn [entityTypes relationTypes].
    rewrite fold_countEntity_empty, (forEach_empty es rs _ _ Hm). tauto.
  - intros [E R]. rewrite (forEach_all_skipped es rs _ R). cbn [bind].
    apply formatOntology_empty_sentence. cbn [entityTypes relationTypes].
    split; [|reflexivity].
    apply fold_countEntity_empty. split; [reflexivity | exact E].
Qed.

End EmptySentence.

(** ** The text does not depend on the order of the properties *)

Section UniqueSorting.

Context {A : Type}.
Variable R : A -> A -> Prop.

(** A list has at most one sorted arrangement under an order that is
    antisymmetric on its elements. *)
Lemma sorted_perm_unique (l1 l2 : list A) :
  (forall a b, In a l1 -> In b l1 -> R a b -> R b a -> a = b) ->
  StronglySorted R l1 -> StronglySorted R l2 -> Permutation l1 l2 -> l1 = l2.
Proof.
  intros anti S1. revert l2.
  induction S1 as [|a t1 S1 IH F1]; intros l2 S2 P.
  - apply Permutation_nil in P. now subst.
  - destruct l2 as [|b t2];
      [apply Permutation_sym, Permutation_nil in P; discriminate|].
    inversion S2 as [|? ? S2' F2]; subst.
    assert (E : a = b).
    { assert (Ha : In a (b :: t2))
        by (eapply Permutation_in; [exact P | now left]).
      assert (Hb : In b (a :: t1))
        by (eapply Permutation_in; [apply Permutation_sym; exact P | now left]).
      destruct Ha as [->|Ha]; [reflexivity|].
      destruct Hb as [->|Hb]; [reflexivity|].
      rewrite Forall_forall in F1, F2.
      apply anti; [now left | now right | now apply F1 | now apply F2]. }
    subst b. f_equal. apply IH.
    + intros x y Hx Hy. apply anti; now right.
    + exact S2'.
    + now apply Permutation_cons_inv in P.
Qed.

End UniqueSorting.

Lemma NoDup_keys_entry {V : Type} (l : list (string * V)) (a b : string * V) :
  NoDup (map fst l) -> In a l -> In b l -> fst a = fst b -> a = b.
Proof.
  induction l as [|x l IH]; simpl; [tauto|].
  intros N Ha Hb E. inversion N as [|? ? Nx Nl]; subst.
  destruct Ha as [->|Ha], Hb as [->|Hb]; auto.
  - exfalso. apply Nx. rewrite E. now apply in_map.
  - exfalso. apply Nx. rewrite <- E. now apply in_map.
Qed.

Section OrderIndependence.

Variable localeCompare : string -> string -> Z.

Hypothesis localeCompare_sign :
  forall a b, Z.sgn (localeCompare b a) = (- Z.sgn (localeCompare a b))%Z.
Hypothesis localeCompare_trans :
  forall a b c, (localeCompare a b <= 0)%Z -> (localeCompare b c <= 0)%Z ->
                (localeCompare a c <= 0)%Z.

Lemma sort_keys_unique {V : Type} (l l' r r' : list (string * V)) :
  distinctUnder localeCompare (map fst l) ->
  Permutation l l' ->
  Array_sort (compareKeys localeCompare) l = Returns r ->
  Array_sort (compareKeys localeCompare) l' = Returns r' ->
  r = r'.
Proof.
  intros [N D] P H H'.
  assert (KS : forall (x y : list (string * V)),
             Array_sort (compareKeys localeCompare) x = Returns y ->
             StronglySorted (orderedBy (keyOrder localeCompare)) y).
  { intros x y Hxy.
    apply (Array_sort_sorted (compareKeys localeCompare) (fun _ => True)
             (keyOrder localeCompare) (compareKeys_returns localeCompare)
             (keyOrder_total localeCompare localeCompare_sign)
             (keyOrder_trans localeCompare localeCompare_trans) x y);
      [|exact Hxy].
    apply Forall_forall. trivial. }
  pose proof (Array_sort_perm _ _ _ H) as Pr.
  pose proof (Array_sort_perm _ _ _ H') as Pr'.
  apply (sorted_perm_unique (orderedBy (keyOrder localeCompare))).
  - intros a b Ha Hb Hab Hba.
    apply Permutation_sym in Pr.
    pose proof (Permutation_in _ Pr Ha) as Ia.
    pose proof (Permutation_in _ Pr Hb) as Ib.
    apply (NoDup_keys_entry l); auto.
    apply D; [now apply in_map | now apply in_map|].
    unfold orderedBy, keyOrder in Hab, Hba.
    pose proof (localeCompare_flip localeCompare localeCompare_sign
                  (fst a) (fst b)).
    lia.
  - now apply KS in H.
  - now apply KS in H'.
  - eapply Permutation_trans; [apply Permutation_sym; exact Pr|].
    eapply Permutation_trans; [exact P | exact Pr'].
Qed.

(** X20.  For a consistent comparator that tells the type names apart,
    the text of [formatOntology] does not depend on the order in which the
    properties of the two maps were created: two ontologies with the same
    entries give the same text. *)
Theorem formatOntology_order_independent (o o' : OntologyData) :
  distinctUnder localeCompare (JsObject.keys (entityTypes o)) ->
  distinctUnder localeCompare (JsObject.keys (relationTypes o)) ->
  Permutation (JsObject.entries (entityTypes o))
              (JsObject.entries (entityTypes o')) ->
  Permutation (JsObject.entries (relationTypes o))
              (JsObject.entries (relationTypes o')) ->
  formatOntology localeCompare o = formatOntology localeCompare o'.
Proof.
  destruct o as [et rt], o' as [et' rt'].
  unfold JsObject.keys, JsObject.entries. cbn [entityTypes relationTypes].
  intros De Dr Pe Pr.
  unfold formatOntology, JsObject.entries. cbn [entityTypes relationTypes].
  rewrite <- (Permutation_length Pe), <- (Permutation_length Pr).
  destruct (sort_keys_returns localeCompare et) as [se He].
  destruct (sort_keys_returns localeCompare et') as [se' He'].
  destruct (sort_keys_returns localeCompare rt) as [sr Hr].
  destruct (sort_keys_returns localeCompare rt') as [sr' Hr'].
  rewrite He, He', Hr, Hr'.
  rewrite (sort_keys_unique et et' se se' De Pe He He').
  now rewrite (sort_keys_unique rt rt' sr sr' Dr Pr Hr Hr').
Qed.

End OrderIndependence.

Lemma codeUnitCompare_eq (a b : string) : codeUnitCompare a b = 0%Z -> a = b.
Proof.
  unfold codeUnitCompare. destruct (String.compare a b) eqn:E; try discriminate.
  intros _. now apply String.compare_eq_iff.
Qed.

Lemma codeUnitCompare_distinct (keys : list string) :
  NoDup keys -> distinctUnder codeUnitCompare keys.
Proof. intro N. split; [exact N|]. intros a b _ _. apply codeUnitCompare_eq. Qed.

Lemma formatOntology_order_independent_witness :
  formatOntology codeUnitCompare teamOntology
  = formatOntology codeUnitCompare teamOntologyReordered.
Proof.
  apply (formatOntology_order_independent codeUnitCompare codeUnitCompare_sign
           codeUnitCompare_trans teamOntology teamOntologyReordered).
  - apply codeUnitCompare_distinct.
    repeat constructor; simpl; intuition discriminate.
  - apply codeUnitCompare_distinct.
    repeat constructor; simpl; intuition discriminate.
  - simpl. apply Permutation_sym.
    eapply perm_trans; [apply perm_skip, perm_swap|].
    eapply perm_trans; [apply perm_swap|]. apply perm_skip. apply perm_swap.
  - simpl. apply perm_swap.
Defined.
